(** * pcdsdevices.pseudopos: pseudo-positioner transforms

    A shallow embedding of [src/pcdsdevices/pseudopos.py]:
    - [PseudoPositioner] (notepad push around [move] and [_update_position]),
    - [SyncAxesBase] (offset cache, [forward], [inverse]),
    - [DelayBase] / [SimDelayStage] (optical delay line),
    - [LookupTablePositioner] (table validation, limits, interpolation),
    - [PseudoSingleInterface] (the prefix of a pseudo axis),
    and of the channel commands of [src/pcdsdevices/mpod.py].

    Conventions.
    - Python floats are idealised as exact rationals ([Qc], canonical
      fractions, so that equality is Leibniz equality): a statement over
      [Qc] is about the real-number computation the code performs, read
      without rounding and without overflow.  Where the code's IEEE 754
      binary64 arithmetic departs from it, the code is run on primitive
      floats in [Module Binary64].
    - A Python call that may raise is a value of [result A]; [exn] stands
      for instances of Python's [Exception] class.
    - Objects of other libraries (ophyd signals and positioners, numpy
      arrays) appear through the interface the code uses. *)

From Stdlib Require Import QArith Qcanon Floats Uint63.
From stdpp Require Import base option list strings gmap sets.

Local Open Scope string_scope.
Local Open Scope list_scope.
Local Open Scope Qc_scope.

(** ** Exceptions and results *)

(** The text carried by an exception.  The f-string messages of
    [LookupTablePositioner.__init__] keep their interpolated value. *)
Inductive message :=
  | Text (s : string)
  | PositionersNotPresent (missing : gset string)
      (* f'Positioners {missing} not present in the table' *)
  | UnsupportedTableDimensions (shape : list nat).
      (* f'Unsupported table dimensions: {table.shape}' *)

(** Instances of [Exception], by class. *)
Inductive exn :=
  | TypeError (m : message)
  | ValueError (m : message)
  | IndexError (m : message)
  | KeyError (key : string)
  | AttributeError (m : message)
  | ZeroDivisionError (m : message)
  | OtherException (m : message).

Inductive result (A : Type) :=
  | Ok (a : A)
  | Raise (e : exn).
Arguments Ok {A} a.
Arguments Raise {A} e.

Definition rbind {A B} (r : result A) (k : A → result B) : result B :=
  match r with
  | Ok a => k a
  | Raise e => Raise e
  end.

#[global] Instance result_ret : MRet result := λ A a, Ok a.
#[global] Instance result_bind : MBind result := λ A B k r, rbind r k.

#[global] Instance message_eq_dec : EqDecision message.
Proof. solve_decision. Defined.
#[global] Instance exn_eq_dec : EqDecision exn.
Proof. solve_decision. Defined.
#[global] Instance result_eq_dec `{EqDecision A} : EqDecision (result A).
Proof. solve_decision. Defined.

Definition is_ok {A} (r : result A) : bool :=
  match r with Ok _ => true | Raise _ => false end.

Definition is_ValueError (e : exn) : bool :=
  match e with ValueError _ => true | _ => false end.

Definition is_AttributeError (e : exn) : bool :=
  match e with AttributeError _ => true | _ => false end.

(** ** Numbers *)

Definition qz (z : Z) : Qc := Q2Qc (inject_Z z).
Definition qfrac (n : Z) (d : positive) : Qc := Q2Qc (n # d).

Definition Qc_ltb (x y : Qc) : bool := bool_decide (x < y).
Definition Qc_eqb (x y : Qc) : bool := bool_decide (x = y).

Definition Qc_min (x y : Qc) : Qc := if Qc_ltb y x then y else x.
Definition Qc_max (x y : Qc) : Qc := if Qc_ltb x y then y else x.

(** ** Named tuples and keyword dictionaries *)

(** A [collections.namedtuple] value ([PseudoPosition], [RealPosition]):
    the fields in declaration order with their values. *)
Definition namedtuple := list (string * Qc).

Definition nt_fields (t : namedtuple) : list string := t.*1.

(** [getattr(t, fld)]. *)
Fixpoint nt_getattr (t : namedtuple) (fld : string) : result Qc :=
  match t with
  | [] => Raise (AttributeError (Text fld))
  | (f, v) :: t' => if decide (f = fld) then Ok v else nt_getattr t' fld
  end.

(** [t[i]]. *)
Definition nt_index (t : namedtuple) (i : nat) : result Qc :=
  match t !! i with
  | Some (_, v) => Ok v
  | None => Raise (IndexError (Text "tuple index out of range"))
  end.

(** Keyword construction [Cls( **kw )] of a namedtuple class with the
    given fields: every field is taken from the keywords; a missing or an
    unexpected keyword is a [TypeError]. *)
Definition nt_of_kwargs (fields : list string) (kw : gmap string Qc)
  : result namedtuple :=
  if decide (dom kw = list_to_set fields)
  then Ok ((λ f, (f, default 0 (kw !! f))) <$> fields)
  else Raise (TypeError (Text "unexpected or missing keyword argument")).

(** [fld, = fields]: unpacking a tuple of exactly one element. *)
Definition unpack_single (fields : list string) : result string :=
  match fields with
  | [f] => Ok f
  | _ => Raise (ValueError (Text "wrong number of values to unpack"))
  end.

(** ** numpy arrays *)

(** An [np.ndarray] of floats: its shape and its elements in row-major
    order. *)
Record ndarray := {
  shape : list nat;
  flat : list Qc
}.

(** [table.shape[-1]]: indexing the shape tuple from the end. *)
Definition shape_last (t : ndarray) : result nat :=
  match last (shape t) with
  | Some n => Ok n
  | None => Raise (IndexError (Text "tuple index out of range"))
  end.

(** [table[:, idx]] on a 2-D table. *)
Definition column (t : ndarray) (idx : nat) : list Qc :=
  match shape t with
  | [rows; cols] =>
      (λ i, default 0 (flat t !! (i * cols + idx)%nat)) <$> seq 0 rows
  | _ => []
  end.

(** [np.min(data)] and [np.max(data)]; numpy refuses an empty array. *)
Definition np_min (data : list Qc) : result Qc :=
  match data with
  | [] => Raise (ValueError (Text "zero-size array to reduction operation"))
  | x :: l => Ok (foldl Qc_min x l)
  end.

Definition np_max (data : list Qc) : result Qc :=
  match data with
  | [] => Raise (ValueError (Text "zero-size array to reduction operation"))
  | x :: l => Ok (foldl Qc_max x l)
  end.

(** [np.interp(x, xp, fp)]: the piecewise-linear interpolant through the
    points [(xp[j], fp[j])], with [fp[-1]] right of the last sample point
    and [fp[0]] left of the first, tested in this order as numpy does.
    Between them numpy searches the segment [xp[j] <= x < xp[j+1]]; the
    scan [interp_from] finds the first one from the left, which is
    numpy's answer whenever [xp] is increasing (numpy does not check
    that it is) and for every table of at most four rows.  The chord is
    the exact one; numpy's binary64 [slope*(x - xp[j]) + fp[j]] is
    within rounding of it.
    [interp_from x x0 y0 rest] is called with [x0 <= x]. *)
Fixpoint interp_from (x x0 y0 : Qc) (rest : list (Qc * Qc)) : Qc :=
  match rest with
  | [] => y0
  | (x1, y1) :: rest' =>
      if Qc_ltb x x1
      then
        if Qc_eqb x0 x then y0
        else (y1 - y0) / (x1 - x0) * (x - x0) + y0
      else interp_from x x1 y1 rest'
  end.

Definition np_interp (x : Qc) (xp fp : list Qc) : result Qc :=
  if bool_decide (xp = [])
  then Raise (ValueError (Text "array of sample points is empty"))
  else if negb (bool_decide (length xp = length fp))
  then Raise (ValueError (Text "fp and xp are not of the same length."))
  else
    match zip xp fp with
    | [] => Raise (ValueError (Text "array of sample points is empty"))
    | (x0, y0) :: rest =>
        let '(xn, yn) := List.last rest (x0, y0) in
        if Qc_ltb xn x then Ok yn
        else if Qc_ltb x x0 then Ok y0
        else Ok (interp_from x x0 y0 rest)
    end.

(** ** Python dictionaries in insertion order *)

(** [d[k] = v]: an existing key keeps its place, a new key goes last. *)
Fixpoint dict_set {V} (d : list (string * V)) (k : string) (v : V)
  : list (string * V) :=
  match d with
  | [] => [(k, v)]
  | (k', v') :: d' =>
      if decide (k' = k) then (k, v) :: d' else (k', v') :: dict_set d' k v
  end.

(** [d[k]]. *)
Fixpoint dict_get {V} (d : list (string * V)) (k : string) : result V :=
  match d with
  | [] => Raise (KeyError k)
  | (k', v) :: d' => if decide (k' = k) then Ok v else dict_get d' k
  end.

(** ** LookupTablePositioner *)

Module LookupTable.

(** What [getattr(self, attr)] finds, as far as [__init__] looks at it. *)
Inductive component :=
  | PseudoSingleCpt
      (* isinstance(obj, PseudoSingle) *)
  | WithLimits (set_limits : Qc * Qc → result unit)
      (* hasattr(obj, 'limits'); the outcome of obj.limits = limits *)
  | WithoutLimits.

(** [self] once [super().__init__] has returned: the attribute names of
    [self._real] and [self._pseudo], and the attributes of [self]
    ([None] where [getattr] raises [AttributeError]). *)
Record device := {
  real_attrs : list string;
  pseudo_attrs : list string;
  cpt : string → option component
}.

(** What construction does to the axes and to the log. *)
Inductive event :=
  | SetPseudoLimits (attr : string) (limits : Qc * Qc)
      (* obj._limits = limits *)
  | SetLimits (attr : string) (limits : Qc * Qc)
      (* obj.limits = limits, returned normally *)
  | LogDebug (attr : string).
      (* self.log.debug('Unable to set limits for %s', obj.name), for the
         object found under attr *)

#[global] Instance event_eq_dec : EqDecision event.
Proof. solve_decision. Defined.

Record t := {
  table : ndarray;
  column_names : list string;
  _table_data_by_name : list (string * list Qc);
  PseudoPosition_fields : list string;
  RealPosition_fields : list string
}.

#[global] Instance ndarray_eq_dec : EqDecision ndarray.
Proof. solve_decision. Defined.
#[global] Instance t_eq_dec : EqDecision t.
Proof. solve_decision. Defined.

(** Lines 314-317: the configured attribute names absent from
    [column_names]. *)
Definition missing_positioners (d : device) (column_names : list string)
  : gset string :=
  foldl (λ missing attr,
           if bool_decide (attr ∈ column_names) then missing
           else {[ attr ]} ∪ missing)
        ∅ (real_attrs d ++ pseudo_attrs d).

(** Lines 331-334: the dict comprehension over [enumerate(column_names)]. *)
Definition table_data_by_name (tbl : ndarray) (column_names : list string)
  : list (string * list Qc) :=
  foldl (λ acc '(idx, name), dict_set acc name (column tbl idx))
        [] (imap pair column_names).

(** Lines 337-345: one turn of the limits loop. *)
Definition set_axis_limits (d : device) (attr : string) (data : list Qc)
  : list event * result unit :=
  match cpt d attr with
  | None => ([], Raise (AttributeError (Text attr)))
  | Some obj =>
      match np_min data with
      | Raise e => ([], Raise e)
      | Ok lo =>
          match np_max data with
          | Raise e => ([], Raise e)
          | Ok hi =>
              match obj with
              | PseudoSingleCpt => ([SetPseudoLimits attr (lo, hi)], Ok ())
              | WithLimits set_limits =>
                  match set_limits (lo, hi) with
                  | Ok _ => ([SetLimits attr (lo, hi)], Ok ())
                  | Raise e =>
                      if is_AttributeError e then ([LogDebug attr], Ok ())
                      else ([], Raise e)
                  end
              | WithoutLimits => ([], Ok ())
              end
          end
      end
  end.

(** Lines 336-345: the loop over [self._table_data_by_name.items()]. *)
Fixpoint set_limits_loop (d : device) (items : list (string * list Qc))
  : list event * result unit :=
  match items with
  | [] => ([], Ok ())
  | (attr, data) :: items' =>
      match set_axis_limits d attr data with
      | (evs, Raise e) => (evs, Raise e)
      | (evs, Ok _) =>
          let '(evs', r) := set_limits_loop d items' in (evs ++ evs', r)
      end
  end.

(** [LookupTablePositioner.__init__], after [super().__init__]. *)
Definition init (d : device) (tbl : ndarray) (names : list string)
  : list event * result t :=
  let missing := missing_positioners d names in
  if negb (bool_decide (missing = ∅))
  then ([], Raise (ValueError (PositionersNotPresent missing)))
  else
    match shape_last tbl with
    | Raise e => ([], Raise e)
    | Ok ncols =>
        if negb (bool_decide (length names = ncols))
        then ([], Raise (ValueError (Text
               "Incorrect number of column names for the given table.")))
        else if negb (bool_decide (length (shape tbl) = 2%nat))
        then ([], Raise (ValueError (UnsupportedTableDimensions (shape tbl))))
        else
          let by_name := table_data_by_name tbl names in
          match set_limits_loop d by_name with
          | (evs, Raise e) => (evs, Raise e)
          | (evs, Ok _) =>
              (evs, Ok {| table := tbl;
                          column_names := names;
                          _table_data_by_name := by_name;
                          PseudoPosition_fields := pseudo_attrs d;
                          RealPosition_fields := real_attrs d |})
          end
    end.

(** What construction has done for the axis [attr] with the column
    [data]: the limits are the minimum and the maximum of the column; a
    pseudo axis got them in [_limits]; an axis with a [limits] attribute
    either took them or raised an [AttributeError] that was logged. *)
Definition limits_applied (d : device) (attr : string) (data : list Qc)
    (evs : list event) : Prop :=
  ∃ lo hi,
    np_min data = Ok lo ∧ np_max data = Ok hi ∧
    match cpt d attr with
    | Some PseudoSingleCpt => SetPseudoLimits attr (lo, hi) ∈ evs
    | Some (WithLimits set_limits) =>
        (set_limits (lo, hi) = Ok () ∧ SetLimits attr (lo, hi) ∈ evs) ∨
        (∃ m, set_limits (lo, hi) = Raise (AttributeError m) ∧
              LogDebug attr ∈ evs)
    | Some WithoutLimits => True
    | None => False
    end.

(** The only way a [limits] setter of a table column's component fails
    is with an [AttributeError]. *)
Definition setters_raise_only_AttributeError (d : device)
    (names : list string) : Prop :=
  ∀ name set_limits limits e,
    name ∈ names →
    cpt d name = Some (WithLimits set_limits) →
    set_limits limits = Raise e →
    is_AttributeError e = true.

(** [forward], lines 364-374.  The decorator has made [pseudo_pos] a
    [PseudoPosition]. *)
Definition forward (self : t) (pseudo_pos : namedtuple) : result namedtuple :=
  pseudo_field ← unpack_single (PseudoPosition_fields self);
  real_field ← unpack_single (RealPosition_fields self);
  x ← dict_get pseudo_pos pseudo_field;
  xp ← dict_get (_table_data_by_name self) pseudo_field;
  fp ← dict_get (_table_data_by_name self) real_field;
  real_value ← np_interp x xp fp;
  nt_of_kwargs (RealPosition_fields self) {[ real_field := real_value ]}.

(** [inverse], lines 392-401. *)
Definition inverse (self : t) (real_pos : namedtuple) : result namedtuple :=
  pseudo_field ← unpack_single (PseudoPosition_fields self);
  real_field ← unpack_single (RealPosition_fields self);
  x ← dict_get real_pos real_field;
  xp ← dict_get (_table_data_by_name self) real_field;
  fp ← dict_get (_table_data_by_name self) pseudo_field;
  pseudo_value ← np_interp x xp fp;
  nt_of_kwargs (PseudoPosition_fields self) {[ pseudo_field := pseudo_value ]}.

End LookupTable.

(** ** Classes and the abstract-base guard *)

(** The classes of the module that take part in the [self.__class__ is ...]
    tests, and classes derived from them elsewhere. *)
Inductive pyclass :=
  | SyncAxesBase_class
  | DelayBase_class
  | SimDelayStage_class          (* class SimDelayStage(DelayBase) *)
  | Subclass (name : string) (base : pyclass).

#[global] Instance pyclass_eq_dec : EqDecision pyclass.
Proof. solve_decision. Defined.

(** ** SyncAxesBase *)

Module SyncAxes.

(** The real axes with the positions they report, how often
    [self.real_position] has been read, and the offset cache. *)
Record t := {
  real_axes : namedtuple;
  reads : nat;
  _offsets : gmap string Qc
}.

#[global] Instance t_eq_dec : EqDecision t.
Proof. solve_decision. Defined.

(** [calc_combined] as the base class defines it: [real_position[0]]. *)
Definition calc_combined_default (real_position : namedtuple) : result Qc :=
  nt_index real_position 0.

(** The dict comprehension of [save_offsets]: one entry per field of
    [pos], in field order ([getattr(pos, fld)] is the value stored with
    [fld]). *)
Definition offsets_of (pos : namedtuple) (combo : Qc) : gmap string Qc :=
  foldl (λ acc '(fld, v), <[fld := v - combo]> acc) ∅ pos.

(** All axes moved by the same amount. *)
Definition shift (c : Qc) (pos : namedtuple) : namedtuple :=
  (λ '(fld, v), (fld, v + c)) <$> pos.

(** A combining function that follows a common shift of the axes, as
    the first axis, the minimum, the maximum and the mean do. *)
Definition translation_equivariant (calc : namedtuple → result Qc) : Prop :=
  ∀ pos c v, calc pos = Ok v → calc (shift c pos) = Ok (v + c).

(** The cache holds the offsets saved when the axes were at some
    position [P]. *)
Definition cached (calc : namedtuple → result Qc) (self : t) : Prop :=
  ∃ P combo,
    P ≠ [] ∧
    nt_fields P = nt_fields (real_axes self) ∧
    calc P = Ok combo ∧
    _offsets self = offsets_of P combo.

Section Engine.

(** [calc_combined] is a method a subclass may override. *)
Variable calc_combined : namedtuple → result Qc.

(** [__init__], lines 149-155; [ophyd_init] is the outcome of
    [super().__init__( *args, **kwargs )] on an instance of the class
    with the given real axes. *)
Definition init (cls : pyclass) (ophyd_init : result unit)
    (axes : namedtuple) : result t :=
  if bool_decide (cls = SyncAxesBase_class)
  then Raise (TypeError (Text
    "SyncAxesBase must be subclassed with the axes to synchronize included as components"))
  else
    _ ← ophyd_init;
    Ok {| real_axes := axes; reads := 0; _offsets := ∅ |}.

(** [save_offsets], lines 184-188. *)
Definition save_offsets (self : t) : result unit * t :=
  let pos := real_axes self in
  let self1 := {| real_axes := real_axes self;
                  reads := S (reads self);
                  _offsets := _offsets self |} in
  match calc_combined pos with
  | Raise e => (Raise e, self1)
  | Ok combo =>
      (Ok (), {| real_axes := real_axes self1;
                 reads := reads self1;
                 _offsets := offsets_of pos combo |})
  end.

(** [forward], lines 193-198; [RealPosition] has the fields of the real
    axes. *)
Definition forward (self : t) (pseudo_pos : namedtuple)
  : result namedtuple * t :=
  let '(saved, self1) :=
    if bool_decide (_offsets self = ∅) then save_offsets self
    else (Ok (), self) in
  match saved with
  | Raise e => (Raise e, self1)
  | Ok _ =>
      let real_pos : result (gmap string Qc) :=
        map_fold (λ axis offset acc,
                    real_pos ← acc;
                    pseudo ← nt_getattr pseudo_pos "pseudo";
                    Ok (<[axis := pseudo + offset]> real_pos))
                 (Ok ∅) (_offsets self1) in
      (kw ← real_pos; nt_of_kwargs (nt_fields (real_axes self1)) kw, self1)
  end.

(** [inverse], line 203; [PseudoPosition] has the one field [pseudo]. *)
Definition inverse (self : t) (real_pos : namedtuple)
  : result namedtuple * t :=
  (combined ← calc_combined real_pos;
   nt_of_kwargs ["pseudo"] {[ "pseudo" := combined ]}, self).

End Engine.

End SyncAxes.

(** ** Unit conversion *)

(** [convert_unit] is imported from [pcdsdevices.utils], which is not
    among the sources; it and the units it knows are modelled from the
    specification. *)

(** Modelled from the spec: the two kinds of unit [convert_unit]
    converts between. *)
Inductive dimension := Time | Length.

#[global] Instance dimension_eq_dec : EqDecision dimension.
Proof. solve_decision. Defined.

(** [scipy.constants.speed_of_light], in metres per second. *)
Definition speed_of_light : Qc := qz 299792458.

(** Modelled from the spec: the unit names [convert_unit] understands
    (seconds and metres with their common SI prefixes), with their
    dimension and their size in the SI base unit. *)
Definition unit_table : list (string * (dimension * Qc)) :=
  [ ("s", (Time, qz 1)); ("second", (Time, qz 1)); ("seconds", (Time, qz 1));
    ("ms", (Time, qfrac 1 1000));
    ("us", (Time, qfrac 1 1000000));
    ("µs", (Time, qfrac 1 1000000));
    ("ns", (Time, qfrac 1 1000000000));
    ("ps", (Time, qfrac 1 1000000000000));
    ("fs", (Time, qfrac 1 1000000000000000));
    ("m", (Length, qz 1)); ("meter", (Length, qz 1));
    ("meters", (Length, qz 1));
    ("km", (Length, qz 1000));
    ("cm", (Length, qfrac 1 100));
    ("mm", (Length, qfrac 1 1000));
    ("um", (Length, qfrac 1 1000000));
    ("µm", (Length, qfrac 1 1000000));
    ("nm", (Length, qfrac 1 1000000000)) ].

(** Modelled from the spec: looking a unit name up; an unknown name is an
    error. *)
Definition parse_unit (unit : string) : result (dimension * Qc) :=
  match dict_get unit_table unit with
  | Ok u => Ok u
  | Raise _ => Raise (OtherException (Text "undefined unit"))
  end.

(** Modelled from the spec: [convert_unit] of [pcdsdevices.utils], which
    is not among the sources.  A stateless conversion between compatible
    physical units: seconds and metres with their common SI prefixes;
    converting between incompatible dimensions is a usage error. *)
Definition convert_unit (value : Qc) (unit new_unit : string) : result Qc :=
  '(dim, size) ← parse_unit unit;
  '(new_dim, new_size) ← parse_unit new_unit;
  if bool_decide (dim = new_dim) then Ok (value * size / new_size)
  else Raise (TypeError (Text "cannot convert between these dimensions")).


(** ** DelayBase *)

Module Delay.

(** [self.n_bounces], [self.delay.egu] and [self.motor.egu]. *)
Record t := {
  n_bounces : Z;
  delay_egu : string;
  motor_egu : string
}.

#[global] Instance t_eq_dec : EqDecision t.
Proof. solve_decision. Defined.

(** [__init__], lines 246-251, with the defaults [egu='s'] and
    [n_bounces=2] filled in by the caller; [motor_egu] is the unit of the
    [motor] component the subclass declares. *)
Definition init (cls : pyclass) (ophyd_init : result unit)
    (egu : string) (n_bounces : Z) (motor_egu : string) : result t :=
  if bool_decide (cls = DelayBase_class)
  then Raise (TypeError (Text
    "DelayBase must be subclassed with a motor component, the real motor to move."))
  else
    _ ← ophyd_init;
    Ok {| n_bounces := n_bounces; delay_egu := egu; motor_egu := motor_egu |}.

(** [SimDelayStage]: [motor = Cpt(FastMotor, init_pos=0, egu='mm')]. *)
Definition SimDelayStage_init (ophyd_init : result unit)
    (egu : string) (n_bounces : Z) : result t :=
  init SimDelayStage_class ophyd_init egu n_bounces "mm".

(** Python's [x / n] for a float [x] and an int [n]. *)
Definition truediv (x : Qc) (n : Z) : result Qc :=
  if bool_decide (n = 0%Z)
  then Raise (ZeroDivisionError (Text "float division by zero"))
  else Ok (x / qz n).

(** [forward], lines 256-259. *)
Definition forward (self : t) (pseudo_pos : namedtuple) : result namedtuple :=
  delay ← nt_getattr pseudo_pos "delay";
  seconds ← convert_unit delay (delay_egu self) "seconds";
  meters ← truediv (seconds * speed_of_light) (n_bounces self);
  motor_value ← convert_unit meters "meters" (motor_egu self);
  nt_of_kwargs ["motor"] {[ "motor" := motor_value ]}.

(** [inverse], lines 264-267. *)
Definition inverse (self : t) (real_pos : namedtuple) : result namedtuple :=
  motor ← nt_getattr real_pos "motor";
  meters ← convert_unit motor (motor_egu self) "meters";
  let seconds := meters / speed_of_light * qz (n_bounces self) in
  delay_value ← convert_unit seconds "seconds" (delay_egu self);
  nt_of_kwargs ["delay"] {[ "delay" := delay_value ]}.

End Delay.

(** ** PseudoPositioner: the notepad push *)

Module Notepad.

(** A [NotepadLinkedSignal] as [_update_notepad_ioc] uses it.  Every
    access may raise. *)
Record signal := {
  connected : result bool;
  write_access : result bool;
  get : result Qc;                 (* signal.get(use_monitor=True) *)
  put : Qc → result unit           (* signal.put(value, wait=False) *)
}.

(** A pseudo axis: [getattr(positioner, attr, None)] for the two notepad
    attribute names. *)
Record pseudo_single := {
  notepad : string → result (option signal)
}.

Inductive event :=
  | PutCall (axis : nat) (value : Qc)
      (* signal.put(value, wait=False) was called on this axis *)
  | LogDebug (attr : string) (value : Qc) (ex : exn).
      (* self.log.debug('Failed to update notepad ...', exc_info=ex) *)

#[global] Instance event_eq_dec : EqDecision event.
Proof. solve_decision. Defined.

(** A computation that calls signals: the calls made, then the outcome. *)
Definition io (A : Type) : Type := list event * result A.

Definition io_seq {A} (c1 : io unit) (c2 : io A) : io A :=
  match c1 with
  | (evs, Raise e) => (evs, Raise e)
  | (evs, Ok _) => let '(evs', r) := c2 in (evs ++ evs', r)
  end.

(** [try: body  except Exception as ex: handler(ex)]. *)
Definition try_except (body : io unit) (handler : exn → io unit) : io unit :=
  match body with
  | (evs, Ok _) => (evs, Ok ())
  | (evs, Raise ex) => let '(evs', r) := handler ex in (evs ++ evs', r)
  end.

(** Lines 65-70, the body of the [try]. *)
Definition push_body (axis : nat) (positioner : pseudo_single)
    (attr : string) (value : Qc) : io unit :=
  match notepad positioner attr with
  | Raise e => ([], Raise e)
  | Ok None => ([], Ok ())                                   (* continue *)
  | Ok (Some signal) =>
      match connected signal with
      | Raise e => ([], Raise e)
      | Ok false => ([], Ok ())
      | Ok true =>
          match write_access signal with
          | Raise e => ([], Raise e)
          | Ok false => ([], Ok ())
          | Ok true =>
              match get signal with
              | Raise e => ([], Raise e)
              | Ok last =>
                  if bool_decide (last ≠ value)
                  then ([PutCall axis value], put signal value)
                  else ([], Ok ())
              end
          end
      end
  end.

(** Lines 64-73, one turn of the loop. *)
Definition push_one (axis : nat) (positioner : pseudo_single)
    (attr : string) (value : Qc) : io unit :=
  try_except (push_body axis positioner attr value)
             (λ ex, ([LogDebug attr value ex], Ok ())).

(** [_update_notepad_ioc], the loop over [zip(self._pseudo, position)];
    [axis] counts the turns. *)
Fixpoint update_from (axis : nat) (pairs : list (pseudo_single * Qc))
    (attr : string) : io unit :=
  match pairs with
  | [] => ([], Ok ())
  | (positioner, value) :: pairs' =>
      io_seq (push_one axis positioner attr value)
             (update_from (S axis) pairs' attr)
  end.

Definition _update_notepad_ioc (_pseudo : list pseudo_single)
    (position : list Qc) (attr : string) : io unit :=
  update_from 0 (zip _pseudo position) attr.

Section Move.

(** The completion handle [MoveStatus] of ophyd. *)
Variable status : Type.

(** [move], lines 110-113; [super_move] is the outcome of
    [super().move(position, ...)]. *)
Definition move (_pseudo : list pseudo_single) (super_move : result status)
    (position : list Qc) : io status :=
  match super_move with
  | Raise e => ([], Raise e)
  | Ok st =>
      match _update_notepad_ioc _pseudo position "notepad_setpoint" with
      | (evs, Raise e) => (evs, Raise e)
      | (evs, Ok _) => (evs, Ok st)
      end
  end.

End Move.

(** [_update_position], lines 117-119; [super_update] is the outcome of
    [super()._update_position()]. *)
Definition _update_position (_pseudo : list pseudo_single)
    (super_update : result (list Qc)) : io (list Qc) :=
  match super_update with
  | Raise e => ([], Raise e)
  | Ok position =>
      match _update_notepad_ioc _pseudo position "notepad_readback" with
      | (evs, Raise e) => (evs, Raise e)
      | (evs, Ok _) => (evs, Ok position)
      end
  end.

(** The axes on which [put] was called. *)
Definition put_calls (evs : list event) : list (nat * Qc) :=
  omap (λ ev, match ev with PutCall a v => Some (a, v) | _ => None end) evs.

(** The condition of lines 66-69 for one axis. *)
Definition wants_put (positioner : pseudo_single) (attr : string)
    (value : Qc) : Prop :=
  ∃ signal last,
    notepad positioner attr = Ok (Some signal) ∧
    connected signal = Ok true ∧
    write_access signal = Ok true ∧
    get signal = Ok last ∧
    last ≠ value.

(** What the calls [evs] of one push over [zip(_pseudo, position)] must
    be: [put] is called on exactly the axes that satisfy the condition,
    with the new value, and every exception raised on an axis is logged. *)
Definition push_contained (_pseudo : list pseudo_single)
    (position : list Qc) (attr : string) (evs : list event) : Prop :=
  (∀ axis value,
     (axis, value) ∈ put_calls evs ↔
     ∃ positioner,
       _pseudo !! axis = Some positioner ∧
       position !! axis = Some value ∧
       wants_put positioner attr value) ∧
  (∀ axis positioner value calls ex,
     _pseudo !! axis = Some positioner →
     position !! axis = Some value →
     push_body axis positioner attr value = (calls, Raise ex) →
     LogDebug attr value ex ∈ evs).

End Notepad.

(** ** The three transforms behind one interface *)

Inductive positioner :=
  | SyncAxesPositioner (calc_combined : namedtuple → result Qc)
                       (self : SyncAxes.t)
  | DelayPositioner (self : Delay.t)
  | LookupPositioner (self : LookupTable.t).

Definition forward (p : positioner) (pseudo_pos : namedtuple)
  : result namedtuple * positioner :=
  match p with
  | SyncAxesPositioner calc self =>
      let '(r, self') := SyncAxes.forward calc self pseudo_pos in
      (r, SyncAxesPositioner calc self')
  | DelayPositioner self => (Delay.forward self pseudo_pos, p)
  | LookupPositioner self => (LookupTable.forward self pseudo_pos, p)
  end.

Definition inverse (p : positioner) (real_pos : namedtuple)
  : result namedtuple * positioner :=
  match p with
  | SyncAxesPositioner calc self =>
      let '(r, self') := SyncAxes.inverse calc self real_pos in
      (r, SyncAxesPositioner calc self')
  | DelayPositioner self => (Delay.inverse self real_pos, p)
  | LookupPositioner self => (LookupTable.inverse self real_pos, p)
  end.

(** How often the positions of the real axes have been read. *)
Definition axis_reads (p : positioner) : nat :=
  match p with
  | SyncAxesPositioner _ self => SyncAxes.reads self
  | DelayPositioner _ | LookupPositioner _ => 0
  end.

(** The offset cache, for the positioner that has one. *)
Definition offset_cache (p : positioner) : option (gmap string Qc) :=
  match p with
  | SyncAxesPositioner _ self => Some (SyncAxes._offsets self)
  | DelayPositioner _ | LookupPositioner _ => None
  end.

(** ** PseudoSingleInterface *)

Module PseudoSingleInterface.

(** [__init__], lines 32-40: the prefix handed to the parent constructor.
    [parent] is [parent.prefix] ([None] when there is no parent),
    [attr_name] is [kwargs['attr_name']] ([None] when the key is not
    there). *)
Definition init_prefix (prefix : string) (parent : option string)
    (attr_name : option string) : result string :=
  if bool_decide (prefix = "")
  then
    match attr_name with
    | None => Raise (KeyError "attr_name")
    | Some attr =>
        match parent with
        | None => Raise (AttributeError (Text "prefix"))
        | Some parent_prefix => Ok (parent_prefix +:+ ":" +:+ attr)
        end
    end
  else Ok prefix.

(** The PV of [notepad_setpoint = Cpt(NotepadLinkedSignal,
    ':OphydSetpoint', ...)] under the prefix of the axis. *)
Definition notepad_setpoint_pv (prefix : string) : string :=
  prefix +:+ ":OphydSetpoint".

(** The PV of [notepad_readback = Cpt(NotepadLinkedSignal,
    ':OphydReadback', ...)]. *)
Definition notepad_readback_pv (prefix : string) : string :=
  prefix +:+ ":OphydReadback".

End PseudoSingleInterface.

(** ** MPOD channels ([src/pcdsdevices/mpod.py]) *)

Module MPOD.

Inductive channel_class := MPODChannel | MPODChannelLV | MPODChannelHV.

#[global] Instance channel_class_eq_dec : EqDecision channel_class.
Proof. solve_decision. Defined.

(** A channel object: its class, its prefix, and [self._card_prefix],
    which only [MPODChannelHV.__init__] assigns. *)
Record t := {
  cls : channel_class;
  prefix : string;
  _card_prefix : option string
}.

(** [MPODChannel.__init__] (also that of [MPODChannelLV]): the card
    prefix is accepted and dropped. *)
Definition init (cls : channel_class) (channel_prefix : string) : t :=
  {| cls := cls; prefix := channel_prefix; _card_prefix := None |}.

(** [MPODChannelHV.__init__], lines 181-184. *)
Definition init_hv (channel_prefix card_prefix : string) : t :=
  {| cls := MPODChannelHV; prefix := channel_prefix;
     _card_prefix := Some card_prefix |}.

(** What is written to a PV: a string (the [state] signal has
    [string=True]) or a number. *)
Inductive pv_value := Str (s : string) | Num (q : Qc).

#[global] Instance pv_value_eq_dec : EqDecision pv_value.
Proof. solve_decision. Defined.

(** The value last put to each PV. *)
Definition written := gmap string pv_value.

(** The write PVs of the signals every channel has: the component suffix
    after the channel prefix. *)
Definition state_pv (self : t) : string := prefix self +:+ ":SetSwitch".
Definition voltage_pv (self : t) : string := prefix self +:+ ":SetVoltage".
Definition current_pv (self : t) : string := prefix self +:+ ":SetCurrent".

(** [self.voltage_rise_rate]: no such attribute on [MPODChannel]; a
    component under the channel prefix on [MPODChannelLV]; formatted with
    the card prefix on [MPODChannelHV]. *)
Definition rate_pv (suffix : string) (attr : string) (self : t)
  : result string :=
  match cls self with
  | MPODChannel => Raise (AttributeError (Text attr))
  | MPODChannelLV => Ok (prefix self +:+ suffix)
  | MPODChannelHV =>
      match _card_prefix self with
      | Some card => Ok (card +:+ suffix)
      | None => Raise (AttributeError (Text "_card_prefix"))
      end
  end.

Definition voltage_rise_rate_pv : t → result string :=
  rate_pv ":SetVoltageRiseRate" "voltage_rise_rate".
Definition voltage_fall_rate_pv : t → result string :=
  rate_pv ":SetVoltageFallRate" "voltage_fall_rate".

(** [signal.put(value)] on the signal that writes to [pv]. *)
Definition put (pv : string) (value : pv_value) (w : written) : written :=
  <[pv := value]> w.

Definition on (self : t) : written → written :=
  put (state_pv self) (Str "On").
Definition off (self : t) : written → written :=
  put (state_pv self) (Str "Off").
Definition reset (self : t) : written → written :=
  put (state_pv self) (Str "Reset").
Definition emer_off (self : t) : written → written :=
  put (state_pv self) (Str "EmerOff").
Definition clr_evnt (self : t) : written → written :=
  put (state_pv self) (Str "ClrEvnt").
Definition set_voltage (self : t) (voltage : Qc) : written → written :=
  put (voltage_pv self) (Num voltage).
Definition set_current (self : t) (current : Qc) : written → written :=
  put (current_pv self) (Num current).

Definition set_voltage_rise_rate (self : t) (rise_rate : Qc) (w : written)
  : result written :=
  pv ← voltage_rise_rate_pv self; Ok (put pv (Num rise_rate) w).

Definition set_voltage_fall_rate (self : t) (fall_rate : Qc) (w : written)
  : result written :=
  pv ← voltage_fall_rate_pv self; Ok (put pv (Num fall_rate) w).

End MPOD.

(** ** The arithmetic of the code on binary64 floats *)

Module Binary64.

Definition of_Z (z : Z) : float := PrimFloat.of_uint63 (Uint63.of_Z z).

(** The float nearest to a fraction of two small integers. *)
Definition of_Qc (q : Qc) : float :=
  PrimFloat.div (of_Z (Qnum q)) (of_Z (Zpos (Qden q))).

(** A [RealPosition] of floats. *)
Definition namedtuple := list (string * float).

(** [calc_combined] of the base class: [real_position[0]]. *)
Definition calc_combined_default (real_position : namedtuple)
  : result float :=
  match real_position !! 0%nat with
  | Some (_, v) => Ok v
  | None => Raise (IndexError (Text "tuple index out of range"))
  end.

(** The dict comprehension of [save_offsets], line 186. *)
Definition offsets_of (pos : namedtuple) (combo : float)
  : gmap string float :=
  foldl (λ acc '(fld, v), <[fld := PrimFloat.sub v combo]> acc) ∅ pos.

(** [save_offsets], lines 184-187: from the real position read to the
    cache assigned. *)
Definition save_offsets (calc_combined : namedtuple → result float)
    (real_position : namedtuple) : result (gmap string float) :=
  combo ← calc_combined real_position;
  Ok (offsets_of real_position combo).

(** [scipy.constants.speed_of_light]. *)
Definition speed_of_light : float := of_Z 299792458.

(** Modelled from the spec: [convert_unit] on floats, scaling by the
    ratio of the two unit sizes. *)
Definition convert_unit (value : float) (unit new_unit : string)
  : result float :=
  '(dim, size) ← parse_unit unit;
  '(new_dim, new_size) ← parse_unit new_unit;
  if bool_decide (dim = new_dim)
  then Ok (PrimFloat.mul value (PrimFloat.div (of_Qc size) (of_Qc new_size)))
  else Raise (TypeError (Text "cannot convert between these dimensions")).

(** [x / n] for a float [x] and an int [n]. *)
Definition truediv (x : float) (n : Z) : result float :=
  if bool_decide (n = 0%Z)
  then Raise (ZeroDivisionError (Text "float division by zero"))
  else Ok (PrimFloat.div x (of_Z n)).

(** [DelayBase.forward], lines 256-258, from the delay to the motor
    value. *)
Definition delay_forward (self : Delay.t) (delay : float) : result float :=
  seconds ← convert_unit delay (Delay.delay_egu self) "seconds";
  meters ← truediv (PrimFloat.mul seconds speed_of_light)
                   (Delay.n_bounces self);
  convert_unit meters "meters" (Delay.motor_egu self).

(** [DelayBase.inverse], lines 264-266, from the motor value to the
    delay. *)
Definition delay_inverse (self : Delay.t) (motor : float) : result float :=
  meters ← convert_unit motor (Delay.motor_egu self) "meters";
  let seconds :=
    PrimFloat.mul (PrimFloat.div meters speed_of_light)
                  (of_Z (Delay.n_bounces self)) in
  convert_unit seconds "seconds" (Delay.delay_egu self).

(** The floats written [0.2], [0.9], [1e-9] and [1e300] in Python. *)
#[warnings="-inexact-float"] Definition two_tenths : float := 0.2%float.
#[warnings="-inexact-float"] Definition nine_tenths : float := 0.9%float.
#[warnings="-inexact-float"] Definition nanosecond : float := 1e-9%float.

End Binary64.

(** ** Conditions used in the statements *)


(** [x0 < l[0] < l[1] < ...]. *)
Fixpoint strictly_increasing_from (x0 : Qc) (l : list Qc) : Prop :=
  match l with
  | [] => True
  | x1 :: l' => x0 < x1 ∧ strictly_increasing_from x1 l'
  end.

Definition strictly_increasing (l : list Qc) : Prop :=
  match l with
  | [] => True
  | x0 :: l' => strictly_increasing_from x0 l'
  end.

(** [x0 <= l[0] <= l[1] <= ...], what [np.interp] expects of its sample
    points. *)
Fixpoint increasing_from (x0 : Qc) (l : list Qc) : Prop :=
  match l with
  | [] => True
  | x1 :: l' => x0 ≤ x1 ∧ increasing_from x1 l'
  end.

Definition increasing (l : list Qc) : Prop :=
  match l with
  | [] => True
  | x0 :: l' => increasing_from x0 l'
  end.

(** ** Example configurations *)

(** A lookup-table positioner with the real axis [real] (which accepts
    limits) and the pseudo axis [pseudo]. *)
Definition example_device : LookupTable.device :=
  {| LookupTable.real_attrs := ["real"];
     LookupTable.pseudo_attrs := ["pseudo"];
     LookupTable.cpt := λ attr,
       if decide (attr = "pseudo") then Some LookupTable.PseudoSingleCpt
       else if decide (attr = "real")
            then Some (LookupTable.WithLimits (λ _, Ok ()))
       else None |}.

(** The table with the columns [real = [0,1,2,3]] and
    [pseudo = [0,10,20,30]]. *)
Definition example_table : ndarray :=
  {| shape := [4; 2]%nat;
     flat := qz <$> [0; 0; 1; 10; 2; 20; 3; 30]%Z |}.

Definition example_names : list string := ["real"; "pseudo"].

(** [np.array(1.0)]: an array of no dimensions. *)
Definition scalar_table : ndarray :=
  {| shape := []; flat := [qz 1] |}.

(** The same device with a real axis whose [limits] setter rejects the
    value with a [ValueError]. *)
Definition strict_device : LookupTable.device :=
  {| LookupTable.real_attrs := ["real"];
     LookupTable.pseudo_attrs := ["pseudo"];
     LookupTable.cpt := λ attr,
       if decide (attr = "pseudo") then Some LookupTable.PseudoSingleCpt
       else if decide (attr = "real")
            then Some (LookupTable.WithLimits
                         (λ _, Raise (ValueError (Text "limits rejected"))))
       else None |}.

(** The same device with a real axis whose [limits] is read-only. *)
Definition readonly_device : LookupTable.device :=
  {| LookupTable.real_attrs := ["real"];
     LookupTable.pseudo_attrs := ["pseudo"];
     LookupTable.cpt := λ attr,
       if decide (attr = "pseudo") then Some LookupTable.PseudoSingleCpt
       else if decide (attr = "real")
            then Some (LookupTable.WithLimits
                         (λ _, Raise (AttributeError (Text "can't set attribute"))))
       else None |}.

(** A [SimDelayStage] with the defaults [egu='s'], [n_bounces=2]. *)
Definition sim_delay_stage : Delay.t :=
  {| Delay.n_bounces := 2; Delay.delay_egu := "s"; Delay.motor_egu := "mm" |}.

(** Two synchronized axes at 1 and 3, nothing cached yet. *)
Definition parallel_fresh : SyncAxes.t :=
  {| SyncAxes.real_axes := [("left", qz 1); ("right", qz 3)];
     SyncAxes.reads := 0;
     SyncAxes._offsets := ∅ |}.

(** The same two axes once [save_offsets] has run. *)
Definition parallel_saved : SyncAxes.t :=
  (SyncAxes.save_offsets SyncAxes.calc_combined_default parallel_fresh).2.

(** The positioner [LookupTablePositioner.__init__] builds from the
    example device and table. *)
Definition example_positioner : LookupTable.t :=
  {| LookupTable.table := example_table;
     LookupTable.column_names := example_names;
     LookupTable._table_data_by_name :=
       LookupTable.table_data_by_name example_table example_names;
     LookupTable.PseudoPosition_fields := ["pseudo"];
     LookupTable.RealPosition_fields := ["real"] |}.

(** A table of two rows and three columns, for column names with a
    repetition. *)
Definition three_column_table : ndarray :=
  {| shape := [2; 3]%nat;
     flat := qz <$> [0; 0; 5; 1; 10; 6]%Z |}.

(** * Properties *)

(** ** Interpolation *)

Lemma Qc_ltb_true (x y : Qc) : Qc_ltb x y = true ↔ x < y.
Proof. unfold Qc_ltb. apply bool_decide_eq_true. Qed.

Lemma Qc_ltb_false (x y : Qc) : Qc_ltb x y = false ↔ y ≤ x.
Proof.
  unfold Qc_ltb. rewrite bool_decide_eq_false. split.
  - apply Qcnot_lt_le.
  - apply Qcle_not_lt.
Qed.

Lemma last_cons_default {A} (a : A) (l : list A) (d d' : A) :
  List.last (a :: l) d = List.last (a :: l) d'.
Proof.
  revert a. induction l as [|b l IH]; intros a; [reflexivity|].
  change (List.last (b :: l) d = List.last (b :: l) d'). apply IH.
Qed.

Lemma last_zip (x0 y0 : Qc) (xp fp : list Qc) :
  length xp = length fp →
  List.last (zip xp fp) (x0, y0) = (List.last xp x0, List.last fp y0).
Proof.
  revert x0 y0 fp. induction xp as [|x1 xp IH]; intros x0 y0 [|y1 fp] Hlen;
    try discriminate; [reflexivity|].
  specialize (IH x1 y1 fp ltac:(simpl in Hlen; congruence)).
  destruct xp as [|x2 xp], fp as [|y2 fp]; try discriminate; [reflexivity|].
  change (List.last ((x2, y2) :: zip xp fp) (x0, y0)
          = (List.last (x2 :: xp) x0, List.last (y2 :: fp) y0)).
  rewrite (last_cons_default (x2, y2) (zip xp fp) (x0, y0) (x1, y1)).
  rewrite (last_cons_default x2 xp x0 x1), (last_cons_default y2 fp y0 y1).
  exact IH.
Qed.

(** [np.interp] on a table with a first row. *)
Lemma np_interp_cons (x x0 y0 : Qc) (xp fp : list Qc) :
  length xp = length fp →
  np_interp x (x0 :: xp) (y0 :: fp)
  = Ok (if Qc_ltb (List.last xp x0) x then List.last fp y0
        else if Qc_ltb x x0 then y0
        else interp_from x x0 y0 (zip xp fp)).
Proof.
  intros Hlen. unfold np_interp.
  rewrite bool_decide_eq_false_2 by discriminate.
  rewrite bool_decide_eq_true_2 by (simpl; congruence).
  cbn [negb zip_with]. rewrite (last_zip x0 y0 xp fp Hlen).
  destruct (Qc_ltb (List.last xp x0) x); [reflexivity|].
  destruct (Qc_ltb x x0); reflexivity.
Qed.

Lemma increasing_from_last (x0 : Qc) (xp : list Qc) :
  increasing_from x0 xp → x0 ≤ List.last xp x0.
Proof.
  revert x0. induction xp as [|x1 xp IH]; intros x0 Hinc;
    [apply Qcle_refl|].
  destruct Hinc as [H01 Hinc]. specialize (IH x1 Hinc).
  apply (Qcle_trans _ x1); [exact H01|].
  destruct xp as [|x2 xp]; [apply Qcle_refl|].
  change (x1 ≤ List.last (x2 :: xp) x0).
  rewrite (last_cons_default x2 xp x0 x1). exact IH.
Qed.

Lemma strictly_increasing_from_increasing (x0 : Qc) (xp : list Qc) :
  strictly_increasing_from x0 xp → increasing_from x0 xp.
Proof.
  revert x0. induction xp as [|x1 xp IH]; intros x0 Hinc; [exact I|].
  destruct Hinc as [H01 Hinc]. split; [apply Qclt_le_weak, H01|auto].
Qed.

(** Left of an increasing table [np.interp] gives the first table
    value. *)
Lemma np_interp_left (x x0 y0 : Qc) (xp fp : list Qc) :
  length xp = length fp →
  increasing_from x0 xp →
  x < x0 →
  np_interp x (x0 :: xp) (y0 :: fp) = Ok y0.
Proof.
  intros Hlen Hinc Hlt. rewrite (np_interp_cons x x0 y0 xp fp Hlen).
  assert (Qc_ltb (List.last xp x0) x = false) as ->.
  { apply Qc_ltb_false. apply Qclt_le_weak.
    apply (Qclt_le_trans _ x0); [exact Hlt|].
    apply increasing_from_last, Hinc. }
  apply Qc_ltb_true in Hlt. rewrite Hlt. reflexivity.
Qed.

(** At or right of every later sample point the scan ends on the last
    table value. *)
Lemma interp_from_right (x x0 y0 : Qc) (rest : list (Qc * Qc)) :
  Forall (λ p, p.1 ≤ x) rest →
  interp_from x x0 y0 rest = (List.last rest (x0, y0)).2.
Proof.
  revert x0 y0. induction rest as [|[x1 y1] rest IH]; intros x0 y0 Hall.
  - reflexivity.
  - apply Forall_cons in Hall as [Hle Hall]. simpl in Hle.
    cbn [interp_from]. apply Qc_ltb_false in Hle. rewrite Hle.
    rewrite (IH x1 y1 Hall). destruct rest as [|p rest]; [reflexivity|].
    change (List.last ((x1, y1) :: p :: rest) (x0, y0))
      with (List.last (p :: rest) (x0, y0)).
    f_equal. apply last_cons_default.
Qed.

(** At or right of every sample point [np.interp] gives the last table
    value. *)
Lemma np_interp_right (x x0 y0 : Qc) (xp fp : list Qc) :
  length xp = length fp →
  x0 ≤ x →
  Forall (λ x', x' ≤ x) xp →
  np_interp x (x0 :: xp) (y0 :: fp) = Ok (List.last fp y0).
Proof.
  intros Hlen Hle Hall. rewrite (np_interp_cons x x0 y0 xp fp Hlen).
  destruct (Qc_ltb (List.last xp x0) x); [reflexivity|].
  apply Qc_ltb_false in Hle. rewrite Hle. f_equal.
  rewrite interp_from_right.
  - rewrite (last_zip x0 y0 xp fp Hlen). reflexivity.
  - clear Hle. revert fp Hlen.
    induction Hall as [|x1 xp Hx1 Hall IH]; intros [|y1 fp] Hlen;
      simpl in *; try discriminate; constructor; auto.
Qed.

(** Between the first two sample points of an increasing table
    [np.interp] is the chord. *)
Lemma np_interp_first_segment (x x0 y0 x1 y1 : Qc) (xp fp : list Qc) :
  length xp = length fp →
  increasing_from x1 xp →
  x0 < x → x < x1 →
  np_interp x (x0 :: x1 :: xp) (y0 :: y1 :: fp)
  = Ok ((y1 - y0) / (x1 - x0) * (x - x0) + y0).
Proof.
  intros Hlen Hinc H0 H1.
  rewrite (np_interp_cons x x0 y0 (x1 :: xp) (y1 :: fp))
    by (simpl; congruence).
  assert (Qc_ltb (List.last (x1 :: xp) x0) x = false) as ->.
  { apply Qc_ltb_false. apply Qclt_le_weak.
    apply (Qclt_le_trans _ x1); [exact H1|].
    rewrite (last_cons_default x1 xp x0 x1).
    apply (increasing_from_last x1 (x1 :: xp)).
    split; [apply Qcle_refl|exact Hinc]. }
  assert (Qc_ltb x x0 = false) as ->.
  { apply Qc_ltb_false. apply Qclt_le_weak. exact H0. }
  cbn [zip_with interp_from].
  apply Qc_ltb_true in H1. rewrite H1.
  unfold Qc_eqb. rewrite bool_decide_eq_false_2; [reflexivity|].
  intros ->. exact (Qclt_not_eq _ _ H0 eq_refl).
Qed.

(** ** The lookup table of the example *)

(** C1: the positioner built from the table with columns
    [real = [0,1,2,3]] and [pseudo = [0,10,20,30]] is constructed, and on
    it [forward(pseudo=15)] is [real=1.5], [inverse(real=2.5)] is
    [pseudo=25], and [forward] clamps to the table edge:
    [forward(pseudo=-5)] is [real=0] and [forward(pseudo=35)] is
    [real=3]. *)
Theorem lookup_table_example :
  ∃ evs self,
    LookupTable.init example_device example_table example_names
      = (evs, Ok self) ∧
    LookupTable.forward self [("pseudo", qz 15)]
      = Ok [("real", qfrac 3 2)] ∧
    LookupTable.inverse self [("real", qfrac 5 2)]
      = Ok [("pseudo", qz 25)] ∧
    LookupTable.forward self [("pseudo", qz (-5))]
      = Ok [("real", qz 0)] ∧
    LookupTable.forward self [("pseudo", qz 35)]
      = Ok [("real", qz 3)].
Proof.
  eexists _, _. split; [vm_compute; reflexivity|].
  repeat split; compute_done.
Qed.

(** ** Named tuples and dictionaries *)

Lemma nt_of_kwargs_single (fld : string) (v : Qc) :
  nt_of_kwargs [fld] {[ fld := v ]} = Ok [(fld, v)].
Proof.
  unfold nt_of_kwargs. rewrite decide_True.
  - simpl. rewrite lookup_singleton_eq. reflexivity.
  - rewrite dom_singleton_L. simpl. rewrite union_empty_r_L. reflexivity.
Qed.

Lemma dict_get_elem {V} (d : list (string * V)) (k : string) (v : V) :
  dict_get d k = Ok v → (k, v) ∈ d.
Proof.
  induction d as [|[k' v'] d IH]; simpl; [discriminate|].
  destruct (decide (k' = k)) as [->|Hne].
  - intros [= ->]. left.
  - intros H. right. auto.
Qed.

(** ** Unit conversion *)






(** Modelled units never mix dimensions. *)
Lemma convert_unit_incompatible (value : Qc) (unit new_unit : string)
    (dim new_dim : dimension) (size new_size : Qc) :
  parse_unit unit = Ok (dim, size) →
  parse_unit new_unit = Ok (new_dim, new_size) →
  dim ≠ new_dim →
  ∃ m, convert_unit value unit new_unit = Raise (TypeError m).
Proof.
  intros H1 H2 Hne. unfold convert_unit. rewrite H1. simpl. rewrite H2. simpl.
  rewrite bool_decide_eq_false_2 by exact Hne. eauto.
Qed.

(** ** The optical delay line *)





(** C5: with [n_bounces = 2], the pseudo axis in seconds and the real
    axis in millimetres, a delay of one nanosecond maps to
    [(1e-9 * 299792458 / 2) * 1000] mm, which is 149.896229 mm, within a
    micrometre of 149.896 mm. *)
Theorem delay_one_nanosecond :
  ∃ motor,
    Delay.forward sim_delay_stage [("delay", qfrac 1 1000000000)]
      = Ok [("motor", motor)] ∧
    motor = qfrac 1 1000000000 * qz 299792458 / qz 2 * qz 1000 ∧
    motor = qfrac 149896229 1000000 ∧
    qfrac 149896 1000 < motor ∧ motor < qfrac 149897 1000.
Proof.
  exists (qfrac 149896229 1000000).
  split; [compute_done|]. split; [compute_done|]. split; [reflexivity|].
  split; reflexivity.
Qed.

(** On binary64 the same call gives a motor position between 149.896 and
    149.897 mm as well, and the way back gives the delay up to rounding:
    not the float [1e-9] itself, but within one part in [10^15] of it. *)
Lemma delay_one_nanosecond_binary64 :
  ∃ motor delay,
    Binary64.delay_forward sim_delay_stage Binary64.nanosecond = Ok motor ∧
    Binary64.delay_inverse sim_delay_stage motor = Ok delay ∧
    PrimFloat.ltb (Binary64.of_Qc (qfrac 149896 1000)) motor = true ∧
    PrimFloat.ltb motor (Binary64.of_Qc (qfrac 149897 1000)) = true ∧
    PrimFloat.eqb delay Binary64.nanosecond = false ∧
    PrimFloat.ltb
      (PrimFloat.abs (PrimFloat.sub delay Binary64.nanosecond))
      (PrimFloat.div Binary64.nanosecond
         (Binary64.of_Z 1000000000000000)) = true.
Proof.
  eexists _, _. split; [vm_compute; reflexivity|].
  split; [vm_compute; reflexivity|].
  repeat split; vm_compute; reflexivity.
Qed.


(** The micro sign is a unit prefix of the table. *)
Lemma micro_units :
  parse_unit "µs" = Ok (Time, qfrac 1 1000000) ∧
  parse_unit "µm" = Ok (Length, qfrac 1 1000000).
Proof. split; compute_done. Qed.

(** ** Abstract bases *)

(** C8: instantiating [SyncAxesBase] or [DelayBase] itself raises a
    [TypeError]; for any other class the guard lets construction through,
    so that a subclass (such as [SimDelayStage]) whose parent constructor
    returns is constructed, with an empty offset cache respectively with
    its bounce count and units. *)
Theorem abstract_bases_rejected :
  (∀ ophyd_init axes,
     ∃ m, SyncAxes.init SyncAxesBase_class ophyd_init axes
          = Raise (TypeError m)) ∧
  (∀ ophyd_init egu n motor_egu,
     ∃ m, Delay.init DelayBase_class ophyd_init egu n motor_egu
          = Raise (TypeError m)) ∧
  (∀ cls axes,
     cls ≠ SyncAxesBase_class →
     SyncAxes.init cls (Ok ()) axes
     = Ok {| SyncAxes.real_axes := axes; SyncAxes.reads := 0;
             SyncAxes._offsets := ∅ |}) ∧
  (∀ cls egu n motor_egu,
     cls ≠ DelayBase_class →
     Delay.init cls (Ok ()) egu n motor_egu
     = Ok {| Delay.n_bounces := n; Delay.delay_egu := egu;
             Delay.motor_egu := motor_egu |}) ∧
  (∀ egu n,
     Delay.SimDelayStage_init (Ok ()) egu n
     = Ok {| Delay.n_bounces := n; Delay.delay_egu := egu;
             Delay.motor_egu := "mm" |}).
Proof.
  repeat split.
  - intros. eexists. reflexivity.
  - intros. eexists. reflexivity.
  - intros cls axes Hne. unfold SyncAxes.init.
    rewrite bool_decide_eq_false_2 by exact Hne. reflexivity.
  - intros cls egu n motor_egu Hne. unfold Delay.init.
    rewrite bool_decide_eq_false_2 by exact Hne. reflexivity.
Qed.

Lemma abstract_bases_rejected_witness :
  SyncAxes.init (Subclass "Parallel" SyncAxesBase_class) (Ok ())
    [("left", qz 1); ("right", qz 3)]
  = Ok parallel_fresh ∧
  Delay.init SimDelayStage_class (Ok ()) "s" 2 "mm" = Ok sim_delay_stage.
Proof.
  destruct abstract_bases_rejected as (_ & _ & Hsync & Hdelay & _).
  split.
  - apply (Hsync (Subclass "Parallel" SyncAxesBase_class)). discriminate.
  - apply (Hdelay SimDelayStage_class). discriminate.
Defined.

(** Whatever the parent constructor does, the guard alone never rejects
    a subclass: a failure of construction is the parent's. *)
Lemma sync_init_subclass (cls : pyclass) (ophyd_init : result unit)
    (axes : namedtuple) (e : exn) :
  cls ≠ SyncAxesBase_class →
  SyncAxes.init cls ophyd_init axes = Raise e →
  ophyd_init = Raise e.
Proof.
  intros Hne. unfold SyncAxes.init.
  rewrite bool_decide_eq_false_2 by exact Hne.
  destruct ophyd_init; simpl; congruence.
Qed.

Lemma delay_init_subclass (cls : pyclass) (ophyd_init : result unit)
    (egu : string) (n : Z) (motor_egu : string) (e : exn) :
  cls ≠ DelayBase_class →
  Delay.init cls ophyd_init egu n motor_egu = Raise e →
  ophyd_init = Raise e.
Proof.
  intros Hne. unfold Delay.init.
  rewrite bool_decide_eq_false_2 by exact Hne.
  destruct ophyd_init; simpl; congruence.
Qed.

(** ** The offset cache *)

Lemma offsets_of_snoc (pos : namedtuple) (fld : string) (v combo : Qc) :
  SyncAxes.offsets_of (pos ++ [(fld, v)]) combo
  = <[fld := v - combo]> (SyncAxes.offsets_of pos combo).
Proof. unfold SyncAxes.offsets_of. rewrite foldl_app. reflexivity. Qed.

Lemma dom_offsets_of (pos : namedtuple) (combo : Qc) :
  dom (SyncAxes.offsets_of pos combo) = list_to_set (nt_fields pos).
Proof.
  induction pos as [|[fld v] pos IH] using rev_ind.
  - apply dom_empty_L.
  - rewrite offsets_of_snoc, dom_insert_L, IH.
    unfold nt_fields. rewrite fmap_app, list_to_set_app_L. simpl.
    rewrite union_empty_r_L. apply union_comm_L.
Qed.

Lemma lookup_offsets_of (pos : namedtuple) (combo : Qc) (fld : string)
    (v : Qc) :
  NoDup (nt_fields pos) →
  (fld, v) ∈ pos →
  SyncAxes.offsets_of pos combo !! fld = Some (v - combo).
Proof.
  induction pos as [|[g w] pos IH] using rev_ind; intros Hnd Hin.
  - inversion Hin.
  - unfold nt_fields in Hnd. rewrite fmap_app in Hnd.
    apply NoDup_app in Hnd as (Hnd & Hfresh & _).
    rewrite offsets_of_snoc.
    apply elem_of_app in Hin as [Hin|Hin].
    + assert (g ≠ fld) as Hne.
      { intros ->. apply (Hfresh fld).
        - apply (list_elem_of_fmap_2 fst _ _ Hin).
        - simpl. left. }
      rewrite lookup_insert_ne by exact Hne. apply IH; assumption.
    + apply list_elem_of_singleton in Hin. injection Hin as -> ->.
      apply lookup_insert_eq.
Qed.

Lemma offsets_of_nonempty (pos : namedtuple) (combo : Qc) :
  pos ≠ [] → SyncAxes.offsets_of pos combo ≠ ∅.
Proof.
  destruct pos as [|[g w] pos] using rev_ind; [congruence|].
  intros _. rewrite offsets_of_snoc. apply insert_non_empty.
Qed.

(** In binary64 the sum does not give the position back: with the axes
    at 0.2 and 0.9 and the base class's [calc_combined], the offset saved
    for the second axis is the float [0.9 - 0.2], and [0.2] plus that
    offset is 0.8999999999999999, not 0.9. *)
Lemma save_offsets_sum_rounds :
  ∃ offsets offset,
    Binary64.save_offsets Binary64.calc_combined_default
      [("left", Binary64.two_tenths); ("right", Binary64.nine_tenths)]
      = Ok offsets ∧
    offsets !! "right" = Some offset ∧
    offset = PrimFloat.sub Binary64.nine_tenths Binary64.two_tenths ∧
    PrimFloat.eqb (PrimFloat.add Binary64.two_tenths offset)
                  Binary64.nine_tenths = false.
Proof.
  eexists _, _. split; [reflexivity|].
  split; [vm_compute; reflexivity|].
  split; [vm_compute; reflexivity|]. vm_compute. reflexivity.
Qed.

(** C2, as the code has it: whatever the combining function, once
    [save_offsets] has run with the real axes at position [P] (and
    [calc_combined(P)] returned [combo]), the cache has exactly one entry
    per real axis, with [offset[axis] = P[axis] - combo], the difference
    the code computes. *)
Theorem save_offsets_spec (calc_combined : namedtuple → result Qc)
    (self : SyncAxes.t) (combo : Qc) :
  NoDup (nt_fields (SyncAxes.real_axes self)) →
  calc_combined (SyncAxes.real_axes self) = Ok combo →
  ∃ self',
    SyncAxes.save_offsets calc_combined self = (Ok (), self') ∧
    SyncAxes.real_axes self' = SyncAxes.real_axes self ∧
    dom (SyncAxes._offsets self')
      = list_to_set (nt_fields (SyncAxes.real_axes self)) ∧
    ∀ axis p,
      (axis, p) ∈ SyncAxes.real_axes self →
      SyncAxes._offsets self' !! axis = Some (p - combo).
Proof.
  intros Hnd Hcalc. unfold SyncAxes.save_offsets. rewrite Hcalc.
  eexists. split; [reflexivity|]. simpl.
  split; [reflexivity|]. split; [apply dom_offsets_of|].
  intros axis p Hin. apply lookup_offsets_of; assumption.
Qed.

Lemma save_offsets_spec_witness :
  ∃ self',
    SyncAxes.save_offsets SyncAxes.calc_combined_default parallel_fresh
      = (Ok (), self') ∧
    SyncAxes.real_axes self' = SyncAxes.real_axes parallel_fresh ∧
    dom (SyncAxes._offsets self')
      = list_to_set (nt_fields (SyncAxes.real_axes parallel_fresh)) ∧
    ∀ axis p,
      (axis, p) ∈ SyncAxes.real_axes parallel_fresh →
      SyncAxes._offsets self' !! axis = Some (p - qz 1).
Proof.
  apply (save_offsets_spec SyncAxes.calc_combined_default parallel_fresh
           (qz 1)).
  - compute_done.
  - reflexivity.
Defined.

(** The same on binary64: the offset stored for an axis is the float
    difference of its position and the combined position. *)
Lemma save_offsets_binary64 (calc_combined : Binary64.namedtuple → result float)
    (P : Binary64.namedtuple) (combo : float) :
  NoDup (P.*1) →
  calc_combined P = Ok combo →
  ∃ offsets,
    Binary64.save_offsets calc_combined P = Ok offsets ∧
    ∀ axis p, (axis, p) ∈ P →
      offsets !! axis = Some (PrimFloat.sub p combo).
Proof.
  intros Hnd Hcalc. unfold Binary64.save_offsets. rewrite Hcalc. simpl.
  eexists. split; [reflexivity|]. unfold Binary64.offsets_of.
  clear Hcalc. induction P as [|[g w] P IH] using rev_ind;
    intros axis p Hin; [inversion Hin|].
  rewrite fmap_app in Hnd. apply NoDup_app in Hnd as (Hnd & Hfresh & _).
  rewrite foldl_app. simpl.
  apply elem_of_app in Hin as [Hin|Hin].
  - assert (g ≠ axis) as Hne.
    { intros ->. apply (Hfresh axis).
      - apply (list_elem_of_fmap_2 fst _ _ Hin).
      - simpl. left. }
    rewrite lookup_insert_ne by exact Hne. apply IH; assumption.
  - apply list_elem_of_singleton in Hin. injection Hin as -> ->.
    apply lookup_insert_eq.
Qed.

(** When the combining function raises, so does [save_offsets], and the
    cache keeps what it had. *)
Lemma save_offsets_raises (calc_combined : namedtuple → result Qc)
    (self : SyncAxes.t) (e : exn) :
  calc_combined (SyncAxes.real_axes self) = Raise e →
  ∃ self',
    SyncAxes.save_offsets calc_combined self = (Raise e, self') ∧
    SyncAxes._offsets self' = SyncAxes._offsets self.
Proof.
  intros Hcalc. unfold SyncAxes.save_offsets. rewrite Hcalc.
  eexists. split; reflexivity.
Qed.

(** Saving twice without a move in between stores the same offsets. *)
Lemma save_offsets_idempotent (calc_combined : namedtuple → result Qc)
    (self : SyncAxes.t) :
  let self1 := (SyncAxes.save_offsets calc_combined self).2 in
  let self2 := (SyncAxes.save_offsets calc_combined self1).2 in
  SyncAxes._offsets self2 = SyncAxes._offsets self1.
Proof.
  unfold SyncAxes.save_offsets.
  destruct (calc_combined (SyncAxes.real_axes self)) as [combo|e] eqn:Hcalc;
    simpl; rewrite Hcalc; reflexivity.
Qed.

(** ** Synchronized axes: forward and inverse *)

(** The loop of [forward] adds the pseudo value to every cached offset. *)
Lemma forward_loop (pseudo_pos : namedtuple) (x : Qc)
    (offsets : gmap string Qc) :
  nt_getattr pseudo_pos "pseudo" = Ok x →
  map_fold (λ axis offset (acc : result (gmap string Qc)),
              real_pos ← acc;
              pseudo ← nt_getattr pseudo_pos "pseudo";
              Ok (<[axis := pseudo + offset]> real_pos))
           (Ok ∅) offsets
  = Ok ((λ offset, x + offset) <$> offsets).
Proof.
  intros Hx.
  apply (map_fold_weak_ind
           (λ r (m : gmap string Qc), r = Ok ((λ offset, x + offset) <$> m))).
  - rewrite fmap_empty. reflexivity.
  - intros axis offset m r _ ->. simpl. rewrite Hx. simpl.
    rewrite fmap_insert. reflexivity.
Qed.

(** With the offsets saved at [P], the targets are the positions of [P]
    moved by [x - combo]. *)
Lemma targets_of_cache (P : namedtuple) (combo x : Qc) :
  NoDup (nt_fields P) →
  nt_of_kwargs (nt_fields P)
    ((λ offset, x + offset) <$> SyncAxes.offsets_of P combo)
  = Ok (SyncAxes.shift (x - combo) P).
Proof.
  intros Hnd. unfold nt_of_kwargs.
  rewrite decide_True by (rewrite dom_fmap_L; apply dom_offsets_of).
  f_equal. unfold nt_fields, SyncAxes.shift.
  rewrite <- list_fmap_compose. apply Forall_fmap_ext_1.
  apply Forall_forall. intros [fld v] Hin. simpl.
  rewrite lookup_fmap, (lookup_offsets_of P combo fld v Hnd Hin). simpl.
  f_equal. ring.
Qed.

Lemma forward_cached (calc_combined : namedtuple → result Qc)
    (self : SyncAxes.t) (P : namedtuple) (combo x : Qc) :
  NoDup (nt_fields P) →
  P ≠ [] →
  nt_fields P = nt_fields (SyncAxes.real_axes self) →
  SyncAxes._offsets self = SyncAxes.offsets_of P combo →
  SyncAxes.forward calc_combined self [("pseudo", x)]
  = (Ok (SyncAxes.shift (x - combo) P), self).
Proof.
  intros Hnd Hne Hfields Hoff. unfold SyncAxes.forward.
  rewrite bool_decide_eq_false_2
    by (rewrite Hoff; apply offsets_of_nonempty, Hne).
  cbv beta iota.
  rewrite (forward_loop _ x) by reflexivity. f_equal. simpl.
  rewrite Hoff, <- Hfields. apply targets_of_cache, Hnd.
Qed.

Lemma forward_lazy (calc_combined : namedtuple → result Qc)
    (self : SyncAxes.t) (combo x : Qc) :
  NoDup (nt_fields (SyncAxes.real_axes self)) →
  SyncAxes._offsets self = ∅ →
  calc_combined (SyncAxes.real_axes self) = Ok combo →
  SyncAxes.forward calc_combined self [("pseudo", x)]
  = (Ok (SyncAxes.shift (x - combo) (SyncAxes.real_axes self)),
     {| SyncAxes.real_axes := SyncAxes.real_axes self;
        SyncAxes.reads := S (SyncAxes.reads self);
        SyncAxes._offsets :=
          SyncAxes.offsets_of (SyncAxes.real_axes self) combo |}).
Proof.
  intros Hnd Hoff Hcalc. unfold SyncAxes.forward, SyncAxes.save_offsets.
  rewrite bool_decide_eq_true_2 by exact Hoff. rewrite Hcalc.
  cbv beta iota. cbn [SyncAxes._offsets SyncAxes.real_axes].
  rewrite (forward_loop _ x) by reflexivity. f_equal. simpl.
  apply targets_of_cache, Hnd.
Qed.

Lemma default_translation_equivariant :
  SyncAxes.translation_equivariant SyncAxes.calc_combined_default.
Proof.
  intros [|[fld p] pos] c v; unfold SyncAxes.calc_combined_default, nt_index;
    simpl; [discriminate|].
  intros [= ->]. reflexivity.
Qed.

(** The round trip for any combining function that follows a common
    shift of the axes. *)
Lemma sync_roundtrip_equivariant (calc_combined : namedtuple → result Qc)
    (self : SyncAxes.t) (x : Qc) :
  SyncAxes.translation_equivariant calc_combined →
  NoDup (nt_fields (SyncAxes.real_axes self)) →
  (SyncAxes._offsets self = ∅ ∧
   is_ok (calc_combined (SyncAxes.real_axes self)) = true) ∨
  SyncAxes.cached calc_combined self →
  ∃ real_pos self',
    SyncAxes.forward calc_combined self [("pseudo", x)]
      = (Ok real_pos, self') ∧
    SyncAxes.real_axes self' = SyncAxes.real_axes self ∧
    SyncAxes.inverse calc_combined self' real_pos
      = (Ok [("pseudo", x)], self').
Proof.
  intros Hequi Hnd Hcache.
  assert (∀ P combo, calc_combined P = Ok combo →
            ∀ s, SyncAxes.inverse calc_combined s
                   (SyncAxes.shift (x - combo) P)
                 = (Ok [("pseudo", x)], s)) as Hinv.
  { intros P combo Hcalc s. unfold SyncAxes.inverse.
    rewrite (Hequi P (x - combo) combo Hcalc). simpl.
    replace (combo + (x - combo)) with x by ring.
    rewrite nt_of_kwargs_single. reflexivity. }
  destruct Hcache as [[Hoff Hok]|(P & combo & Hne & Hfields & Hcalc & Hoff)].
  - destruct (calc_combined (SyncAxes.real_axes self)) as [combo|]
      eqn:Hcalc; [|discriminate].
    eexists _, _. split; [apply (forward_lazy _ _ combo x Hnd Hoff Hcalc)|].
    split; [reflexivity|]. apply Hinv, Hcalc.
  - eexists _, _.
    split; [apply (forward_cached _ _ P combo x); try assumption;
            rewrite Hfields; exact Hnd|].
    split; [reflexivity|]. apply Hinv, Hcalc.
Qed.

(** C3: with the base class's [calc_combined], whether the offsets were
    saved earlier (at any position of the axes) or are saved by this very
    call, [forward(x)] returns real positions from which [inverse] gives
    back [x]; the axes are not moved by either call and [inverse] leaves
    the cache as [forward] left it. *)
Theorem sync_roundtrip (self : SyncAxes.t) (x : Qc) :
  NoDup (nt_fields (SyncAxes.real_axes self)) →
  SyncAxes.real_axes self ≠ [] →
  SyncAxes._offsets self = ∅ ∨
  SyncAxes.cached SyncAxes.calc_combined_default self →
  ∃ real_pos self',
    SyncAxes.forward SyncAxes.calc_combined_default self [("pseudo", x)]
      = (Ok real_pos, self') ∧
    SyncAxes.real_axes self' = SyncAxes.real_axes self ∧
    SyncAxes.inverse SyncAxes.calc_combined_default self' real_pos
      = (Ok [("pseudo", x)], self').
Proof.
  intros Hnd Hne Hcache.
  apply sync_roundtrip_equivariant;
    [apply default_translation_equivariant|exact Hnd|].
  destruct Hcache as [Hoff|Hcached]; [left|right; exact Hcached].
  split; [exact Hoff|].
  destruct (SyncAxes.real_axes self) as [|[fld p] pos]; [congruence|].
  reflexivity.
Qed.

Lemma sync_roundtrip_witness :
  ∃ real_pos self',
    SyncAxes.forward SyncAxes.calc_combined_default parallel_fresh
      [("pseudo", qz 5)] = (Ok real_pos, self') ∧
    SyncAxes.real_axes self' = SyncAxes.real_axes parallel_fresh ∧
    SyncAxes.inverse SyncAxes.calc_combined_default self' real_pos
      = (Ok [("pseudo", qz 5)], self').
Proof.
  apply (sync_roundtrip parallel_fresh (qz 5)).
  - compute_done.
  - discriminate.
  - left. reflexivity.
Defined.

(** ** The notepad push *)

Lemma put_calls_app (evs evs' : list Notepad.event) :
  Notepad.put_calls (evs ++ evs')
  = Notepad.put_calls evs ++ Notepad.put_calls evs'.
Proof. apply omap_app. Qed.

(** One turn of the loop never raises. *)
Lemma push_one_returns (axis : nat) (positioner : Notepad.pseudo_single)
    (attr : string) (value : Qc) :
  (Notepad.push_one axis positioner attr value).2 = Ok ().
Proof.
  unfold Notepad.push_one, Notepad.try_except.
  destruct (Notepad.push_body axis positioner attr value) as [evs [[]|ex]];
    reflexivity.
Qed.

(** One turn calls [put] exactly when the condition holds. *)
Lemma push_one_put (axis : nat) (positioner : Notepad.pseudo_single)
    (attr : string) (value : Qc) (a : nat) (w : Qc) :
  (a, w) ∈ Notepad.put_calls (Notepad.push_one axis positioner attr value).1
  ↔ a = axis ∧ w = value ∧ Notepad.wants_put positioner attr value.
Proof.
  unfold Notepad.push_one, Notepad.try_except, Notepad.push_body,
    Notepad.wants_put.
  destruct (Notepad.notepad positioner attr) as [[signal|]|] eqn:Hsig;
    simpl; [|split; [inversion 1|intros (_ & _ & ? & ? & ? & _); congruence]..].
  destruct (Notepad.connected signal) as [[]|] eqn:Hcon; simpl;
    [|split; [inversion 1
             |intros (_ & _ & ? & ? & ? & ? & _); congruence]..].
  destruct (Notepad.write_access signal) as [[]|] eqn:Hwr; simpl;
    [|split; [inversion 1
             |intros (_ & _ & ? & ? & ? & ? & ? & _); congruence]..].
  destruct (Notepad.get signal) as [last|] eqn:Hget; simpl;
    [|split; [inversion 1
             |intros (_ & _ & ? & ? & ? & ? & ? & ? & _); congruence]].
  destruct (decide (last = value)) as [Heq|Hne].
  - rewrite bool_decide_eq_false_2 by (intros Hd; exact (Hd Heq)). simpl.
    split; [inversion 1|].
    intros (_ & _ & sig' & last' & Hs & _ & _ & Hg & Hd).
    assert (sig' = signal) as -> by congruence.
    assert (last' = last) as -> by congruence. contradiction.
  - rewrite bool_decide_eq_true_2 by exact Hne.
    destruct (Notepad.put signal value); simpl;
      (split;
       [intros Hin; apply list_elem_of_singleton in Hin;
        injection Hin as -> ->; repeat split; eauto 10
       |intros (-> & -> & _); left]).
Qed.

(** One turn logs the exception its body raised. *)
Lemma push_one_logs (axis : nat) (positioner : Notepad.pseudo_single)
    (attr : string) (value : Qc) (calls : list Notepad.event) (ex : exn) :
  Notepad.push_body axis positioner attr value = (calls, Raise ex) →
  Notepad.push_one axis positioner attr value
  = (calls ++ [Notepad.LogDebug attr value ex], Ok ()).
Proof.
  intros Hbody. unfold Notepad.push_one, Notepad.try_except.
  rewrite Hbody. reflexivity.
Qed.

Lemma update_from_returns (axis : nat)
    (pairs : list (Notepad.pseudo_single * Qc)) (attr : string) :
  (Notepad.update_from axis pairs attr).2 = Ok ().
Proof.
  revert axis. induction pairs as [|[positioner value] pairs IH];
    intros axis; [reflexivity|].
  cbn [Notepad.update_from]. unfold Notepad.io_seq.
  pose proof (push_one_returns axis positioner attr value) as Hone.
  destruct (Notepad.push_one axis positioner attr value) as [evs r].
  simpl in Hone. subst r. specialize (IH (S axis)).
  destruct (Notepad.update_from (S axis) pairs attr) as [evs' r'].
  exact IH.
Qed.

Lemma update_from_cons (axis : nat) (positioner : Notepad.pseudo_single)
    (value : Qc) (pairs : list (Notepad.pseudo_single * Qc))
    (attr : string) :
  (Notepad.update_from axis ((positioner, value) :: pairs) attr).1
  = (Notepad.push_one axis positioner attr value).1
    ++ (Notepad.update_from (S axis) pairs attr).1.
Proof.
  cbn [Notepad.update_from]. unfold Notepad.io_seq.
  pose proof (push_one_returns axis positioner attr value) as Hone.
  destruct (Notepad.push_one axis positioner attr value) as [evs r].
  simpl in Hone. subst r.
  destruct (Notepad.update_from (S axis) pairs attr) as [evs' r'].
  reflexivity.
Qed.

Lemma update_from_put (axis : nat)
    (pairs : list (Notepad.pseudo_single * Qc)) (attr : string)
    (a : nat) (w : Qc) :
  (a, w) ∈ Notepad.put_calls (Notepad.update_from axis pairs attr).1
  ↔ ∃ i positioner,
      a = (axis + i)%nat ∧
      pairs !! i = Some (positioner, w) ∧
      Notepad.wants_put positioner attr w.
Proof.
  revert axis. induction pairs as [|[positioner value] pairs IH];
    intros axis.
  - simpl. split; [inversion 1|]. intros (i & p & _ & Hi & _).
    discriminate.
  - rewrite update_from_cons, put_calls_app, elem_of_app, push_one_put, IH.
    split.
    + intros [(-> & -> & Hw)|(i & p & -> & Hi & Hw)].
      * exists 0%nat, positioner. rewrite Nat.add_0_r. auto.
      * exists (S i), p. split; [lia|]. auto.
    + intros ([|i] & p & -> & Hi & Hw).
      * injection Hi as -> ->. left. rewrite Nat.add_0_r. auto.
      * right. exists i, p. split; [lia|]. auto.
Qed.

Lemma update_from_logs (axis : nat)
    (pairs : list (Notepad.pseudo_single * Qc)) (attr : string)
    (i : nat) (positioner : Notepad.pseudo_single) (value : Qc)
    (calls : list Notepad.event) (ex : exn) :
  pairs !! i = Some (positioner, value) →
  Notepad.push_body (axis + i) positioner attr value = (calls, Raise ex) →
  Notepad.LogDebug attr value ex ∈ (Notepad.update_from axis pairs attr).1.
Proof.
  revert axis i. induction pairs as [|[p v] pairs IH]; intros axis i Hi Hbody;
    [discriminate|].
  rewrite update_from_cons, elem_of_app. destruct i as [|i].
  - injection Hi as -> ->. left. rewrite Nat.add_0_r in Hbody.
    rewrite (push_one_logs _ _ _ _ _ _ Hbody). simpl.
    apply elem_of_app. right. left.
  - right. apply (IH (S axis) i Hi).
    replace (S axis + i)%nat with (axis + S i)%nat by lia. exact Hbody.
Qed.

Lemma update_notepad_ioc_spec (_pseudo : list Notepad.pseudo_single)
    (position : list Qc) (attr : string) :
  ∃ evs,
    Notepad._update_notepad_ioc _pseudo position attr = (evs, Ok ()) ∧
    Notepad.push_contained _pseudo position attr evs.
Proof.
  unfold Notepad._update_notepad_ioc.
  pose proof (update_from_returns 0 (zip _pseudo position) attr) as Hret.
  pose proof (update_from_put 0 (zip _pseudo position) attr) as Hput.
  pose proof (update_from_logs 0 (zip _pseudo position) attr) as Hlog.
  destruct (Notepad.update_from 0 (zip _pseudo position) attr) as [evs r].
  simpl in *. subst r. exists evs. split; [reflexivity|]. split.
  - intros axis value. rewrite Hput. split.
    + intros (i & p & -> & Hi & Hw). simpl. exists p.
      apply lookup_zip_with_Some in Hi as (p' & v' & [= -> ->] & Hp & Hv).
      auto.
    + intros (p & Hp & Hv & Hw). exists axis, p.
      split; [reflexivity|]. split; [|exact Hw].
      apply lookup_zip_with_Some. eauto.
  - intros axis p value calls ex Hp Hv Hbody.
    apply (Hlog axis p value calls ex); [|exact Hbody].
    apply lookup_zip_with_Some. eauto.
Qed.

(** C9: when the coordinated move has returned its status, [move] returns
    that same status whatever the signals do; the push in between calls
    [put] on exactly the pseudo axes whose signal is there, connected,
    writable and holding another value than the new one, and logs every
    exception an axis raised.  [_update_position] does the same with the
    readback signals and returns the position. *)
Theorem notepad_push_never_propagates (status : Type)
    (_pseudo : list Notepad.pseudo_single) (position : list Qc) :
  (∀ st : status,
     ∃ evs,
       Notepad.move status _pseudo (Ok st) position = (evs, Ok st) ∧
       Notepad.push_contained _pseudo position "notepad_setpoint" evs) ∧
  (∃ evs,
     Notepad._update_position _pseudo (Ok position) = (evs, Ok position) ∧
     Notepad.push_contained _pseudo position "notepad_readback" evs).
Proof.
  split.
  - intros st. unfold Notepad.move.
    destruct (update_notepad_ioc_spec _pseudo position "notepad_setpoint")
      as (evs & -> & Hspec).
    exists evs. split; [reflexivity|exact Hspec].
  - unfold Notepad._update_position.
    destruct (update_notepad_ioc_spec _pseudo position "notepad_readback")
      as (evs & -> & Hspec).
    exists evs. split; [reflexivity|exact Hspec].
Qed.

(** A failure of the coordinated move itself is not the push's: it
    reaches the caller and nothing is pushed. *)
Lemma move_failure_propagates (status : Type)
    (_pseudo : list Notepad.pseudo_single) (position : list Qc) (e : exn) :
  Notepad.move status _pseudo (Raise e) position = ([], Raise e).
Proof. reflexivity. Qed.

(** ** Purity of the transforms *)

(** [forward] of the synchronized axes with an empty cache is not pure:
    on two fresh axes at 1 and 3 it reads the real position and fills the
    cache. *)
Lemma sync_forward_fills_cache :
  let p := SyncAxesPositioner SyncAxes.calc_combined_default parallel_fresh in
  let p' := (forward p [("pseudo", qz 5)]).2 in
  p' ≠ p ∧
  axis_reads p = 0%nat ∧ axis_reads p' = 1%nat ∧
  offset_cache p = Some ∅ ∧
  offset_cache p'
  = Some (<["right" := qz 2]> (<["left" := qz 0]> ∅)).
Proof.
  cbv zeta. split; [|split; [|split; [|split]]].
  - intros Heq. apply (f_equal axis_reads) in Heq. vm_compute in Heq.
    discriminate.
  - reflexivity.
  - reflexivity.
  - reflexivity.
  - compute_done.
Qed.

Lemma sync_forward_state (calc_combined : namedtuple → result Qc)
    (self : SyncAxes.t) (pos : namedtuple) :
  (SyncAxes.forward calc_combined self pos).2
  = if bool_decide (SyncAxes._offsets self = ∅)
    then (SyncAxes.save_offsets calc_combined self).2
    else self.
Proof.
  unfold SyncAxes.forward.
  destruct (bool_decide (SyncAxes._offsets self = ∅)).
  - destruct (SyncAxes.save_offsets calc_combined self) as [[[]|e] self1];
      reflexivity.
  - reflexivity.
Qed.

(** C10, as the code has it: [inverse] of every transform, and [forward]
    of every transform whose offset cache is not empty (the delay and
    lookup-table transforms have none), leave the positioner as it was,
    cache and count of real-position reads included, so that a second
    call with the same argument returns the same value.  [forward] of the
    synchronized axes with an empty cache leaves the state [save_offsets]
    leaves. *)
Theorem transforms_pure_once_cached (p : positioner) (pos : namedtuple) :
  (inverse p pos).2 = p ∧
  (offset_cache p ≠ Some ∅ →
   (forward p pos).2 = p ∧
   forward (forward p pos).2 pos = forward p pos) ∧
  (∀ calc_combined self,
     p = SyncAxesPositioner calc_combined self →
     SyncAxes._offsets self = ∅ →
     (forward p pos).2
     = SyncAxesPositioner calc_combined
         (SyncAxes.save_offsets calc_combined self).2).
Proof.
  split; [|split].
  - destruct p; reflexivity.
  - intros Hcache.
    assert ((forward p pos).2 = p) as Hsame.
    { destruct p as [calc self| |]; try reflexivity.
      simpl in *.
      pose proof (sync_forward_state calc self pos) as Hst.
      destruct (SyncAxes.forward calc self pos) as [r self']. simpl in *.
      rewrite bool_decide_eq_false_2 in Hst by congruence.
      subst self'. reflexivity. }
    split; [exact Hsame|]. rewrite Hsame. reflexivity.
  - intros calc self -> Hempty. simpl.
    pose proof (sync_forward_state calc self pos) as Hst.
    destruct (SyncAxes.forward calc self pos) as [r self']. simpl in *.
    rewrite bool_decide_eq_true_2 in Hst by exact Hempty.
    subst self'. reflexivity.
Qed.

Lemma transforms_pure_once_cached_witness :
  let p := SyncAxesPositioner SyncAxes.calc_combined_default parallel_saved in
  (forward p [("pseudo", qz 5)]).2 = p ∧
  forward (forward p [("pseudo", qz 5)]).2 [("pseudo", qz 5)]
  = forward p [("pseudo", qz 5)].
Proof.
  cbv zeta.
  apply (transforms_pure_once_cached
           (SyncAxesPositioner SyncAxes.calc_combined_default parallel_saved)
           [("pseudo", qz 5)]).
  intros Heq. apply (inj Some) in Heq.
  apply (f_equal (λ m : gmap string Qc, m !! "left")) in Heq.
  vm_compute in Heq. discriminate.
Defined.

(** After the first [forward] has filled the cache, further calls are
    pure. *)
Lemma sync_forward_pure_afterwards (self : SyncAxes.t) (x y : Qc) :
  NoDup (nt_fields (SyncAxes.real_axes self)) →
  SyncAxes.real_axes self ≠ [] →
  SyncAxes._offsets self = ∅ →
  let self1 :=
    (SyncAxes.forward SyncAxes.calc_combined_default self [("pseudo", x)]).2 in
  (SyncAxes.forward SyncAxes.calc_combined_default self1 [("pseudo", y)]).2
  = self1.
Proof.
  intros Hnd Hne Hempty self1.
  assert (∃ combo, SyncAxes.calc_combined_default (SyncAxes.real_axes self)
                   = Ok combo) as [combo Hcalc].
  { destruct (SyncAxes.real_axes self) as [|[fld p] axes]; [congruence|].
    eexists. reflexivity. }
  subst self1. rewrite (forward_lazy _ _ combo x Hnd Hempty Hcalc).
  cbn [snd].
  rewrite (forward_cached _ _ (SyncAxes.real_axes self) combo y);
    auto.
Qed.

(** ** Lookup table: validation at construction *)

Lemma missing_positioners_spec (d : LookupTable.device)
    (names : list string) (attr : string) :
  attr ∈ LookupTable.missing_positioners d names
  ↔ attr ∈ LookupTable.real_attrs d ++ LookupTable.pseudo_attrs d
    ∧ attr ∉ names.
Proof.
  unfold LookupTable.missing_positioners.
  generalize (LookupTable.real_attrs d ++ LookupTable.pseudo_attrs d).
  intros attrs.
  assert (∀ acc : gset string,
            attr ∈ foldl (λ missing a,
                            if bool_decide (a ∈ names) then missing
                            else {[ a ]} ∪ missing) acc attrs
            ↔ attr ∈ acc ∨ (attr ∈ attrs ∧ attr ∉ names)) as Hgen.
  { induction attrs as [|a attrs IH]; intros acc; simpl.
    - split; [auto|]. intros [H|[H _]]; [exact H|inversion H].
    - rewrite IH. destruct (decide (a ∈ names)) as [Hin|Hout].
      + rewrite bool_decide_eq_true_2 by exact Hin.
        rewrite elem_of_cons. split.
        * intros [H|[H1 H2]]; auto.
        * intros [H|[[->|H1] H2]]; auto. contradiction.
      + rewrite bool_decide_eq_false_2 by exact Hout.
        rewrite elem_of_union, elem_of_singleton, elem_of_cons. split.
        * intros [[->|H]|[H1 H2]]; auto.
        * intros [H|[[->|H1] H2]]; auto. }
  rewrite Hgen. split; [intros [H|H]; [inversion H|exact H]|auto].
Qed.

(** X11: a configured axis missing from the column names: [ValueError],
    whatever the table is, and the message holds exactly the missing
    attribute names. *)
Lemma init_missing (d : LookupTable.device) (tbl : ndarray)
    (names : list string) (attr : string) :
  attr ∈ LookupTable.real_attrs d ++ LookupTable.pseudo_attrs d →
  attr ∉ names →
  ∃ missing,
    LookupTable.init d tbl names
      = ([], Raise (ValueError (PositionersNotPresent missing))) ∧
    attr ∈ missing ∧
    ∀ a, a ∈ missing
         ↔ a ∈ LookupTable.real_attrs d ++ LookupTable.pseudo_attrs d
           ∧ a ∉ names.
Proof.
  intros Hin Hout. exists (LookupTable.missing_positioners d names).
  assert (attr ∈ LookupTable.missing_positioners d names) as Hmiss
    by (apply missing_positioners_spec; auto).
  split; [|split; [exact Hmiss|intros a; apply missing_positioners_spec]].
  unfold LookupTable.init.
  rewrite bool_decide_eq_false_2; [reflexivity|].
  intros Hempty. rewrite Hempty in Hmiss. exact (not_elem_of_empty _ Hmiss).
Qed.

(** X12: as many dimensions as one likes, but at least one: a wrong
    number of column names or of dimensions is a [ValueError]. *)
Lemma init_bad_shape (d : LookupTable.device) (tbl : ndarray)
    (names : list string) (ncols : nat) :
  LookupTable.missing_positioners d names = ∅ →
  shape_last tbl = Ok ncols →
  length names ≠ ncols ∨ length (shape tbl) ≠ 2%nat →
  ∃ m, LookupTable.init d tbl names = ([], Raise (ValueError m)).
Proof.
  intros Hmiss Hlast Hbad. unfold LookupTable.init.
  rewrite bool_decide_eq_true_2 by exact Hmiss. simpl. rewrite Hlast.
  destruct (decide (length names = ncols)) as [Hlen|Hlen].
  - rewrite (bool_decide_eq_true_2 _ Hlen). simpl.
    destruct Hbad as [Hbad|Hbad]; [contradiction|].
    rewrite (bool_decide_eq_false_2 _ Hbad). simpl. eauto.
  - rewrite (bool_decide_eq_false_2 _ Hlen). simpl. eauto.
Qed.

(** A table of no dimensions: [table.shape[-1]] raises before the
    dimension check is reached. *)
Lemma init_no_dimensions (d : LookupTable.device) (tbl : ndarray)
    (names : list string) :
  LookupTable.missing_positioners d names = ∅ →
  shape tbl = [] →
  LookupTable.init d tbl names
  = ([], Raise (IndexError (Text "tuple index out of range"))).
Proof.
  intros Hmiss Hshape. unfold LookupTable.init, shape_last.
  rewrite bool_decide_eq_true_2 by exact Hmiss. rewrite Hshape.
  reflexivity.
Qed.

(** C6, at the input where the code departs from it: with a table of no
    dimensions ([np.array(1.0)]) and both axis names among the column
    names, construction raises an [IndexError], not the [ValueError] of
    the validation. *)
Theorem init_scalar_table_IndexError :
  LookupTable.init example_device scalar_table example_names
  = ([], Raise (IndexError (Text "tuple index out of range"))) ∧
  match (LookupTable.init example_device scalar_table example_names).2 with
  | Ok _ => False
  | Raise e => is_ValueError e = false
  end.
Proof.
  assert (LookupTable.init example_device scalar_table example_names
          = ([], Raise (IndexError (Text "tuple index out of range"))))
    as Hinit by (apply init_no_dimensions; [compute_done|reflexivity]).
  split; [exact Hinit|]. rewrite Hinit. reflexivity.
Qed.

(** ** Lookup table: the columns by name *)

Lemma dict_get_set {V} (d : list (string * V)) (k k' : string) (v : V) :
  dict_get (dict_set d k v) k'
  = if decide (k = k') then Ok v else dict_get d k'.
Proof.
  induction d as [|[k0 v0] d IH]; simpl.
  - reflexivity.
  - destruct (decide (k0 = k)) as [->|Hne]; simpl.
    + destruct (decide (k = k')); reflexivity.
    + destruct (decide (k0 = k')) as [->|Hne'].
      * rewrite decide_False by congruence. reflexivity.
      * exact IH.
Qed.

Lemma elem_of_dict_set {V} (d : list (string * V)) (k k' : string)
    (v v' : V) :
  (k', v') ∈ dict_set d k v → (k', v') = (k, v) ∨ (k', v') ∈ d.
Proof.
  induction d as [|[k0 v0] d IH]; simpl.
  - intros H. apply list_elem_of_singleton in H. auto.
  - destruct (decide (k0 = k)) as [->|Hne]; rewrite !elem_of_cons.
    + intros [H|H]; auto.
    + intros [H|H]; [auto|]. destruct (IH H); auto.
Qed.

Lemma table_data_by_name_snoc (tbl : ndarray) (names : list string)
    (name : string) :
  LookupTable.table_data_by_name tbl (names ++ [name])
  = dict_set (LookupTable.table_data_by_name tbl names) name
      (column tbl (length names)).
Proof.
  unfold LookupTable.table_data_by_name.
  rewrite imap_app, foldl_app. simpl. rewrite Nat.add_0_r. reflexivity.
Qed.

(** Every column name is a key; its data is a column of that name. *)
Lemma table_data_lookup (tbl : ndarray) (names : list string)
    (attr : string) :
  attr ∈ names →
  ∃ data idx,
    dict_get (LookupTable.table_data_by_name tbl names) attr = Ok data ∧
    names !! idx = Some attr ∧
    data = column tbl idx.
Proof.
  induction names as [|name names IH] using rev_ind; [inversion 1|].
  intros Hin. rewrite table_data_by_name_snoc, dict_get_set.
  destruct (decide (name = attr)) as [->|Hne].
  - exists (column tbl (length names)), (length names).
    split; [reflexivity|]. split; [|reflexivity].
    apply list_lookup_middle. reflexivity.
  - apply elem_of_app in Hin as [Hin|Hin].
    + destruct (IH Hin) as (data & idx & Hget & Hidx & Hdata).
      exists data, idx. split; [exact Hget|]. split; [|exact Hdata].
      apply lookup_app_l_Some. exact Hidx.
    + apply list_elem_of_singleton in Hin. congruence.
Qed.

Lemma table_data_elem (tbl : ndarray) (names : list string)
    (attr : string) (data : list Qc) :
  (attr, data) ∈ LookupTable.table_data_by_name tbl names →
  attr ∈ names ∧ ∃ idx, data = column tbl idx.
Proof.
  induction names as [|name names IH] using rev_ind; [inversion 1|].
  rewrite table_data_by_name_snoc. intros Hin.
  apply elem_of_dict_set in Hin as [[= -> ->]|Hin].
  - split; [apply elem_of_app; right; left|eauto].
  - destruct (IH Hin) as [Hname Hcol].
    split; [apply elem_of_app; left; exact Hname|exact Hcol].
Qed.

Lemma column_nonempty (tbl : ndarray) (rows cols idx : nat) :
  shape tbl = [rows; cols] → (0 < rows)%nat → column tbl idx ≠ [].
Proof.
  intros Hshape Hrows. unfold column. rewrite Hshape.
  destruct rows as [|rows]; [lia|]. discriminate.
Qed.

(** ** Minimum and maximum of a column *)

Lemma Qc_min_spec (x y : Qc) :
  (Qc_min x y = x ∨ Qc_min x y = y) ∧ Qc_min x y ≤ x ∧ Qc_min x y ≤ y.
Proof.
  unfold Qc_min. destruct (Qc_ltb y x) eqn:Hlt.
  - apply Qc_ltb_true in Hlt. repeat split; auto using Qclt_le_weak, Qcle_refl.
  - apply Qc_ltb_false in Hlt. repeat split; auto using Qcle_refl.
Qed.

Lemma Qc_max_spec (x y : Qc) :
  (Qc_max x y = x ∨ Qc_max x y = y) ∧ x ≤ Qc_max x y ∧ y ≤ Qc_max x y.
Proof.
  unfold Qc_max. destruct (Qc_ltb x y) eqn:Hlt.
  - apply Qc_ltb_true in Hlt. repeat split; auto using Qclt_le_weak, Qcle_refl.
  - apply Qc_ltb_false in Hlt. repeat split; auto using Qcle_refl.
Qed.

(** [np.min] returns an element of the column below all others. *)
Lemma np_min_spec (data : list Qc) (lo : Qc) :
  np_min data = Ok lo → lo ∈ data ∧ Forall (λ x, lo ≤ x) data.
Proof.
  destruct data as [|x l]; [discriminate|]. simpl. intros [= <-].
  revert x. induction l as [|y l IH]; intros x; simpl.
  - split; [left|]. constructor; [apply Qcle_refl|constructor].
  - destruct (IH (Qc_min x y)) as [Hin Hall].
    destruct (Qc_min_spec x y) as (Hcase & Hx & Hy).
    apply Forall_cons in Hall as [Hm Hall]. split.
    + apply elem_of_cons in Hin as [Hin|Hin].
      * rewrite Hin. destruct Hcase as [->| ->];
          [left|right; left].
      * right. right. exact Hin.
    + repeat constructor; eauto using Qcle_trans.
Qed.

(** [np.max] returns an element of the column above all others. *)
Lemma np_max_spec (data : list Qc) (hi : Qc) :
  np_max data = Ok hi → hi ∈ data ∧ Forall (λ x, x ≤ hi) data.
Proof.
  destruct data as [|x l]; [discriminate|]. simpl. intros [= <-].
  revert x. induction l as [|y l IH]; intros x; simpl.
  - split; [left|]. constructor; [apply Qcle_refl|constructor].
  - destruct (IH (Qc_max x y)) as [Hin Hall].
    destruct (Qc_max_spec x y) as (Hcase & Hx & Hy).
    apply Forall_cons in Hall as [Hm Hall]. split.
    + apply elem_of_cons in Hin as [Hin|Hin].
      * rewrite Hin. destruct Hcase as [->| ->];
          [left|right; left].
      * right. right. exact Hin.
    + repeat constructor; eauto using Qcle_trans.
Qed.

(** ** Lookup table: limits *)

Lemma limits_applied_mono (d : LookupTable.device) (attr : string)
    (data : list Qc) (evs evs' : list LookupTable.event) :
  evs ⊆ evs' →
  LookupTable.limits_applied d attr data evs →
  LookupTable.limits_applied d attr data evs'.
Proof.
  intros Hsub (lo & hi & Hlo & Hhi & Hcpt). exists lo, hi.
  split; [exact Hlo|]. split; [exact Hhi|].
  destruct (LookupTable.cpt d attr) as [[|set_limits|]|]; auto.
  destruct Hcpt as [[Hset Hin]|(m & Hset & Hin)]; [left|right]; eauto.
Qed.

Lemma set_axis_limits_ok (d : LookupTable.device) (attr : string)
    (data : list Qc) (evs : list LookupTable.event) :
  LookupTable.set_axis_limits d attr data = (evs, Ok ()) →
  LookupTable.limits_applied d attr data evs.
Proof.
  unfold LookupTable.set_axis_limits, LookupTable.limits_applied.
  destruct (LookupTable.cpt d attr) as [obj|]; [|discriminate].
  destruct (np_min data) as [lo|]; [|discriminate].
  destruct (np_max data) as [hi|]; [|discriminate].
  intros Hstep. exists lo, hi. split; [reflexivity|]. split; [reflexivity|].
  destruct obj as [|set_limits|].
  - injection Hstep as <-. left.
  - destruct (set_limits (lo, hi)) as [[]|e] eqn:Hset.
    + injection Hstep as <-. left. split; [reflexivity|left].
    + destruct e; simpl in Hstep; try discriminate.
      injection Hstep as <-. right. eexists. split; [reflexivity|left].
  - exact I.
Qed.

(** When the loop comes to its end, every item has had its limits
    applied. *)
Lemma set_limits_loop_ok (d : LookupTable.device)
    (items : list (string * list Qc)) (evs : list LookupTable.event) :
  LookupTable.set_limits_loop d items = (evs, Ok ()) →
  ∀ attr data,
    (attr, data) ∈ items → LookupTable.limits_applied d attr data evs.
Proof.
  revert evs. induction items as [|[a dat] items IH]; intros evs Hloop
    attr data Hin; [inversion Hin|].
  cbn [LookupTable.set_limits_loop] in Hloop.
  destruct (LookupTable.set_axis_limits d a dat) as [evs1 [[]|e]] eqn:Hstep;
    [|discriminate].
  destruct (LookupTable.set_limits_loop d items) as [evs2 r] eqn:Hrest.
  injection Hloop as <- ->.
  apply elem_of_cons in Hin as [[= -> ->]|Hin].
  - apply (limits_applied_mono _ _ _ evs1);
      [intros ev Hev; apply elem_of_app; auto|].
    apply set_axis_limits_ok, Hstep.
  - apply (limits_applied_mono _ _ _ evs2);
      [intros ev Hev; apply elem_of_app; auto|].
    apply (IH evs2 eq_refl), Hin.
Qed.

(** The loop comes to its end when every key is an attribute, no column
    is empty, and no [limits] setter raises anything but an
    [AttributeError]. *)
Lemma set_limits_loop_succeeds (d : LookupTable.device)
    (items : list (string * list Qc)) :
  (∀ attr data,
     (attr, data) ∈ items →
     is_Some (LookupTable.cpt d attr) ∧ data ≠ [] ∧
     ∀ set_limits limits e,
       LookupTable.cpt d attr = Some (LookupTable.WithLimits set_limits) →
       set_limits limits = Raise e → is_AttributeError e = true) →
  ∃ evs, LookupTable.set_limits_loop d items = (evs, Ok ()).
Proof.
  induction items as [|[attr data] items IH]; intros Hitems.
  - eexists. reflexivity.
  - destruct (Hitems attr data ltac:(left)) as ([obj Hobj] & Hdata & Hset).
    destruct IH as [evs2 Hrest].
    { intros a dat Hin. apply Hitems. right. exact Hin. }
    cbn [LookupTable.set_limits_loop].
    unfold LookupTable.set_axis_limits. rewrite Hobj.
    destruct data as [|x data]; [congruence|]. simpl. rewrite Hrest.
    destruct obj as [|set_limits|].
    + eexists. reflexivity.
    + destruct (set_limits (foldl Qc_min x data, foldl Qc_max x data))
        as [[]|e] eqn:Hcall.
      * eexists. reflexivity.
      * rewrite (Hset _ _ _ Hobj Hcall). eexists. reflexivity.
    + eexists. reflexivity.
Qed.

Lemma init_ok_inv (d : LookupTable.device) (tbl : ndarray)
    (names : list string) (evs : list LookupTable.event)
    (self : LookupTable.t) :
  LookupTable.init d tbl names = (evs, Ok self) →
  LookupTable.missing_positioners d names = ∅ ∧
  LookupTable.set_limits_loop d (LookupTable.table_data_by_name tbl names)
    = (evs, Ok ()) ∧
  LookupTable._table_data_by_name self
    = LookupTable.table_data_by_name tbl names.
Proof.
  unfold LookupTable.init.
  destruct (decide (LookupTable.missing_positioners d names = ∅))
    as [Hmiss|Hmiss];
    [rewrite (bool_decide_eq_true_2 _ Hmiss)
    |rewrite (bool_decide_eq_false_2 _ Hmiss); discriminate].
  simpl. destruct (shape_last tbl) as [ncols|]; [|discriminate].
  destruct (bool_decide (length names = ncols)); [|discriminate]. simpl.
  destruct (bool_decide (length (shape tbl) = 2%nat)); [|discriminate].
  simpl.
  destruct (LookupTable.set_limits_loop d
              (LookupTable.table_data_by_name tbl names))
    as [evs' [[]|e]]; [|discriminate].
  intros [= <- <-]. auto.
Qed.

(** An exception of the setter that is not an [AttributeError] leaves
    the loop. *)
Lemma set_axis_limits_propagates (d : LookupTable.device) (attr : string)
    (data : list Qc) (set_limits : Qc * Qc → result unit) (lo hi : Qc)
    (e : exn) :
  LookupTable.cpt d attr = Some (LookupTable.WithLimits set_limits) →
  np_min data = Ok lo →
  np_max data = Ok hi →
  set_limits (lo, hi) = Raise e →
  is_AttributeError e = false →
  LookupTable.set_axis_limits d attr data = ([], Raise e).
Proof.
  intros Hcpt Hlo Hhi Hcall Hclass. unfold LookupTable.set_axis_limits.
  rewrite Hcpt, Hlo, Hhi, Hcall, Hclass. reflexivity.
Qed.

(** A [limits] setter that raises a [ValueError] makes construction
    fail. *)
Lemma strict_limits_setter_fails_init :
  LookupTable.init strict_device example_table example_names
  = ([], Raise (ValueError (Text "limits rejected"))).
Proof. vm_compute. reflexivity. Qed.

(** C7, as the code has it: after a successful construction every
    configured axis has a column under its name, and the limits applied
    are the minimum and maximum of that column: set in [_limits] for a
    pseudo axis, through [limits] for an axis that has it, where an
    [AttributeError] of the setter is logged at debug level instead.
    Construction succeeds whenever validation passes, the table has a
    row, every column name is an attribute and the setters raise nothing
    but [AttributeError]; an exception of another class raised by the
    setter of the first column fails construction. *)
Theorem limits_from_table (d : LookupTable.device) (tbl : ndarray)
    (names : list string) :
  (∀ evs self,
     LookupTable.init d tbl names = (evs, Ok self) →
     ∀ attr,
       attr ∈ LookupTable.real_attrs d ++ LookupTable.pseudo_attrs d →
       ∃ data idx,
         dict_get (LookupTable._table_data_by_name self) attr = Ok data ∧
         names !! idx = Some attr ∧
         data = column tbl idx ∧
         LookupTable.limits_applied d attr data evs) ∧
  (LookupTable.missing_positioners d names = ∅ →
   (∃ rows, (0 < rows)%nat ∧ shape tbl = [rows; length names]) →
   (∀ name, name ∈ names → is_Some (LookupTable.cpt d name)) →
   LookupTable.setters_raise_only_AttributeError d names →
   ∃ evs self, LookupTable.init d tbl names = (evs, Ok self)) ∧
  (∀ attr data set_limits lo hi e,
     LookupTable.cpt d attr = Some (LookupTable.WithLimits set_limits) →
     np_min data = Ok lo →
     np_max data = Ok hi →
     set_limits (lo, hi) = Raise e →
     is_AttributeError e = false →
     ∀ items, LookupTable.set_limits_loop d ((attr, data) :: items)
              = ([], Raise e)).
Proof.
  split; [|split].
  - intros evs self Hinit attr Hattr.
    destruct (init_ok_inv _ _ _ _ _ Hinit) as (Hmiss & Hloop & ->).
    assert (attr ∈ names) as Hname.
    { destruct (decide (attr ∈ names)) as [H|H]; [exact H|].
      assert (attr ∈ LookupTable.missing_positioners d names) as Hin
        by (apply missing_positioners_spec; auto).
      rewrite Hmiss in Hin. destruct (not_elem_of_empty _ Hin). }
    destruct (table_data_lookup tbl names attr Hname)
      as (data & idx & Hget & Hidx & Hdata).
    exists data, idx. repeat split; try assumption.
    apply (set_limits_loop_ok _ _ _ Hloop). apply dict_get_elem, Hget.
  - intros Hmiss (rows & Hrows & Hshape) Hattrs Hsetters.
    destruct (set_limits_loop_succeeds d
                (LookupTable.table_data_by_name tbl names)) as [evs Hloop].
    { intros attr data Hin.
      destruct (table_data_elem _ _ _ _ Hin) as [Hname [idx ->]].
      split; [apply Hattrs, Hname|].
      split; [apply (column_nonempty _ _ _ _ Hshape Hrows)|].
      intros set_limits limits e Hcpt Hcall.
      apply (Hsetters attr set_limits limits e Hname Hcpt Hcall). }
    unfold LookupTable.init, shape_last.
    rewrite (bool_decide_eq_true_2 _ Hmiss), Hshape. simpl.
    rewrite bool_decide_eq_true_2 by reflexivity. simpl.
    rewrite Hloop. eauto.
  - intros attr data set_limits lo hi e Hcpt Hlo Hhi Hcall Hclass items.
    cbn [LookupTable.set_limits_loop].
    rewrite (set_axis_limits_propagates _ _ _ _ _ _ _ Hcpt Hlo Hhi Hcall
               Hclass).
    reflexivity.
Qed.

Lemma limits_from_table_witness :
  ∃ evs self,
    LookupTable.init readonly_device example_table example_names
    = (evs, Ok self).
Proof.
  apply (proj1 (proj2 (limits_from_table readonly_device example_table
                         example_names))).
  - compute_done.
  - exists 4%nat. split; [lia|reflexivity].
  - intros name Hname. vm_compute in Hname.
    apply elem_of_cons in Hname as [->|Hname]; [eexists; reflexivity|].
    apply list_elem_of_singleton in Hname as ->. eexists. reflexivity.
  - intros name set_limits limits e Hname Hcpt Hcall.
    apply elem_of_cons in Hname as [->|Hname].
    + injection Hcpt as <-. injection Hcall as <-. reflexivity.
    + apply list_elem_of_singleton in Hname as ->. discriminate.
Defined.

(** On the read-only axis the failure is logged and the pseudo axis
    still gets its limits. *)
Lemma readonly_limits_logged :
  (LookupTable.init readonly_device example_table example_names).1
  = [LookupTable.LogDebug "real";
     LookupTable.SetPseudoLimits "pseudo" (qz 0, qz 30)].
Proof. compute_done. Qed.

(** * Further properties of the code *)

(** ** Synchronized axes *)



Lemma nt_fields_shift (c : Qc) (pos : namedtuple) :
  nt_fields (SyncAxes.shift c pos) = nt_fields pos.
Proof.
  unfold nt_fields, SyncAxes.shift. rewrite <- list_fmap_compose.
  apply Forall_fmap_ext_1, Forall_forall. intros [fld v] _. reflexivity.
Qed.


(** X1: with a cache that is not empty and has the real axis names as
    its keys (as [save_offsets] leaves it), [forward(x)] returns one
    target per real axis, in the order of the axes, each the sum of [x]
    and the offset cached for that axis, and changes nothing. *)
Theorem forward_targets_per_axis (calc_combined : namedtuple → result Qc)
    (self : SyncAxes.t) (x : Qc) :
  SyncAxes._offsets self ≠ ∅ →
  dom (SyncAxes._offsets self)
    = list_to_set (nt_fields (SyncAxes.real_axes self)) →
  ∃ targets,
    SyncAxes.forward calc_combined self [("pseudo", x)]
      = (Ok targets, self) ∧
    nt_fields targets = nt_fields (SyncAxes.real_axes self) ∧
    ∀ i axis,
      nt_fields (SyncAxes.real_axes self) !! i = Some axis →
      ∃ offset,
        SyncAxes._offsets self !! axis = Some offset ∧
        targets !! i = Some (axis, x + offset).
Proof.
  intros Hne Hdom. unfold SyncAxes.forward.
  rewrite (bool_decide_eq_false_2 _ Hne). cbv beta iota.
  rewrite (forward_loop _ x) by reflexivity. simpl.
  unfold nt_of_kwargs. rewrite decide_True by (rewrite dom_fmap_L; exact Hdom).
  eexists. split; [reflexivity|]. split.
  - unfold nt_fields. rewrite <- list_fmap_compose.
    rewrite <- (list_fmap_id ((SyncAxes.real_axes self).*1)) at 2.
    apply Forall_fmap_ext_1, Forall_forall. intros fld _. reflexivity.
  - intros i axis Hi.
    assert (is_Some (SyncAxes._offsets self !! axis)) as [offset Hoff].
    { apply elem_of_dom. rewrite Hdom. apply elem_of_list_to_set.
      apply (list_elem_of_lookup_2 _ i), Hi. }
    exists offset. split; [exact Hoff|].
    unfold namedtuple in *. rewrite list_lookup_fmap, Hi. simpl.
    rewrite lookup_fmap, Hoff. reflexivity.
Qed.

Lemma forward_targets_per_axis_witness :
  ∃ targets,
    SyncAxes.forward SyncAxes.calc_combined_default parallel_saved
      [("pseudo", qz 5)] = (Ok targets, parallel_saved) ∧
    nt_fields targets = nt_fields (SyncAxes.real_axes parallel_saved) ∧
    ∀ i axis,
      nt_fields (SyncAxes.real_axes parallel_saved) !! i = Some axis →
      ∃ offset,
        SyncAxes._offsets parallel_saved !! axis = Some offset ∧
        targets !! i = Some (axis, qz 5 + offset).
Proof.
  apply (forward_targets_per_axis SyncAxes.calc_combined_default
           parallel_saved (qz 5)).
  - intros Heq.
    apply (f_equal (λ m : gmap string Qc, m !! "left")) in Heq.
    vm_compute in Heq. discriminate.
  - compute_done.
Defined.





(** X4: once offsets are cached, [forward] does not look at where the
    real axes are: two positioners with the same cache and the same axis
    names get the same targets, wherever their axes stand (offsets saved
    before an axis was moved on its own stay in use until
    [save_offsets] is called again). *)
Theorem forward_uses_cache_only (calc_combined : namedtuple → result Qc)
    (self self' : SyncAxes.t) (pseudo_pos : namedtuple) :
  SyncAxes._offsets self ≠ ∅ →
  SyncAxes._offsets self' = SyncAxes._offsets self →
  nt_fields (SyncAxes.real_axes self')
    = nt_fields (SyncAxes.real_axes self) →
  (SyncAxes.forward calc_combined self' pseudo_pos).1
  = (SyncAxes.forward calc_combined self pseudo_pos).1 ∧
  SyncAxes.reads (SyncAxes.forward calc_combined self' pseudo_pos).2
  = SyncAxes.reads self'.
Proof.
  intros Hne Hoff Hfields. unfold SyncAxes.forward.
  rewrite (bool_decide_eq_false_2 _ Hne).
  rewrite bool_decide_eq_false_2 by (rewrite Hoff; exact Hne).
  cbv beta iota. rewrite Hoff, Hfields. split; reflexivity.
Qed.

Lemma forward_uses_cache_only_witness :
  let moved :=
    {| SyncAxes.real_axes := [("left", qz 7); ("right", qz 0)];
       SyncAxes.reads := SyncAxes.reads parallel_saved;
       SyncAxes._offsets := SyncAxes._offsets parallel_saved |} in
  (SyncAxes.forward SyncAxes.calc_combined_default moved
     [("pseudo", qz 5)]).1
  = (SyncAxes.forward SyncAxes.calc_combined_default parallel_saved
       [("pseudo", qz 5)]).1 ∧
  SyncAxes.reads
    (SyncAxes.forward SyncAxes.calc_combined_default moved
       [("pseudo", qz 5)]).2
  = SyncAxes.reads moved.
Proof.
  cbv zeta.
  apply (forward_uses_cache_only SyncAxes.calc_combined_default
           parallel_saved).
  - intros Heq.
    apply (f_equal (λ m : gmap string Qc, m !! "left")) in Heq.
    vm_compute in Heq. discriminate.
  - reflexivity.
  - reflexivity.
Defined.

(** X5: when the cache is empty and the combining function raises on the
    current real position, [forward] raises that exception after one read
    of the axes and leaves the cache empty, so that the next call tries
    again.  The base class's [calc_combined] raises an [IndexError] when
    there is no real axis. *)
Theorem forward_lazy_failure (calc_combined : namedtuple → result Qc)
    (self : SyncAxes.t) (pseudo_pos : namedtuple) (e : exn) :
  SyncAxes._offsets self = ∅ →
  calc_combined (SyncAxes.real_axes self) = Raise e →
  SyncAxes.forward calc_combined self pseudo_pos
  = (Raise e,
     {| SyncAxes.real_axes := SyncAxes.real_axes self;
        SyncAxes.reads := S (SyncAxes.reads self);
        SyncAxes._offsets := ∅ |}).
Proof.
  intros Hempty Hcalc. unfold SyncAxes.forward, SyncAxes.save_offsets.
  rewrite (bool_decide_eq_true_2 _ Hempty), Hcalc, Hempty. reflexivity.
Qed.

Lemma forward_lazy_failure_witness :
  SyncAxes.forward SyncAxes.calc_combined_default
    {| SyncAxes.real_axes := []; SyncAxes.reads := 0;
       SyncAxes._offsets := ∅ |} [("pseudo", qz 5)]
  = (Raise (IndexError (Text "tuple index out of range")),
     {| SyncAxes.real_axes := []; SyncAxes.reads := 1;
        SyncAxes._offsets := ∅ |}).
Proof.
  apply (forward_lazy_failure SyncAxes.calc_combined_default
           {| SyncAxes.real_axes := []; SyncAxes.reads := 0;
              SyncAxes._offsets := ∅ |}); reflexivity.
Defined.

(** ** The optical delay line, further *)








(** ** Interpolation on an increasing table *)


Lemma Qc_sub_nonneg (x y : Qc) : x ≤ y → 0 ≤ y - x.
Proof. intros H. apply Qcle_minus_iff in H. exact H. Qed.



Lemma strictly_increasing_from_lookup (x0 : Qc) (l : list Qc) (j : nat)
    (xj : Qc) :
  strictly_increasing_from x0 l → l !! j = Some xj → x0 < xj.
Proof.
  revert x0 j. induction l as [|x1 l IH]; intros x0 j Hinc Hj;
    [discriminate|].
  destruct Hinc as [H01 Hinc]. destruct j as [|j].
  - injection Hj as <-. exact H01.
  - apply (Qclt_trans _ x1); [exact H01|]. apply (IH x1 j Hinc Hj).
Qed.

Lemma sample_below_last (x0 : Qc) (xp : list Qc) (j : nat) (xj : Qc) :
  strictly_increasing_from x0 xp →
  (x0 :: xp) !! j = Some xj →
  xj ≤ List.last xp x0.
Proof.
  revert x0 j. induction xp as [|x1 xp IH]; intros x0 j Hinc Hj.
  - destruct j; [|discriminate]. injection Hj as <-. apply Qcle_refl.
  - destruct j as [|j].
    + injection Hj as <-.
      apply (increasing_from_last x0 (x1 :: xp)).
      apply strictly_increasing_from_increasing, Hinc.
    + destruct Hinc as [_ Hinc]. specialize (IH x1 j Hinc Hj).
      destruct xp as [|x2 xp]; [exact IH|].
      change (xj ≤ List.last (x2 :: xp) x0).
      rewrite (last_cons_default x2 xp x0 x1). exact IH.
Qed.

(** At a sample point the scan returns the table value. *)
Lemma interp_from_sample (x0 y0 : Qc) (xp fp : list Qc) (j : nat)
    (xj yj : Qc) :
  strictly_increasing_from x0 xp →
  (x0 :: xp) !! j = Some xj →
  (y0 :: fp) !! j = Some yj →
  interp_from xj x0 y0 (zip xp fp) = yj.
Proof.
  revert x0 y0 fp j. induction xp as [|x1 xp IH]; intros x0 y0 fp j Hinc Hx Hy.
  - destruct j; [|discriminate]. injection Hx as <-. injection Hy as <-.
    reflexivity.
  - destruct Hinc as [H01 Hinc]. destruct j as [|j].
    + injection Hx as <-. injection Hy as <-.
      destruct fp as [|y1 fp]; [reflexivity|]. cbn [zip_with interp_from].
      apply Qc_ltb_true in H01. rewrite H01. unfold Qc_eqb.
      rewrite bool_decide_eq_true_2 by reflexivity. reflexivity.
    + destruct fp as [|y1 fp]; [destruct j; discriminate|].
      cbn [zip_with interp_from]. simpl in Hx, Hy.
      assert (x1 ≤ xj) as Hle.
      { destruct j as [|j]; [injection Hx as <-; apply Qcle_refl|].
        apply Qclt_le_weak.
        apply (strictly_increasing_from_lookup x1 xp j xj Hinc Hx). }
      apply Qc_ltb_false in Hle. rewrite Hle.
      apply (IH x1 y1 fp j Hinc Hx Hy).
Qed.


(** ** The lookup table: forward and inverse on the columns *)

Lemma lookup_forward_interp (self : LookupTable.t) (pf rf : string)
    (xp fp : list Qc) (x : Qc) :
  LookupTable.PseudoPosition_fields self = [pf] →
  LookupTable.RealPosition_fields self = [rf] →
  dict_get (LookupTable._table_data_by_name self) pf = Ok xp →
  dict_get (LookupTable._table_data_by_name self) rf = Ok fp →
  LookupTable.forward self [(pf, x)]
  = match np_interp x xp fp with
    | Ok v => Ok [(rf, v)]
    | Raise e => Raise e
    end.
Proof.
  intros Hpf Hrf Hxp Hfp. unfold LookupTable.forward.
  rewrite Hpf, Hrf. simpl. rewrite decide_True by reflexivity. simpl.
  rewrite Hxp. simpl. rewrite Hfp. simpl.
  destruct (np_interp x xp fp) as [v|e]; simpl; [|reflexivity].
  apply nt_of_kwargs_single.
Qed.


(** X8: on a table whose pseudo column is strictly increasing, [forward]
    reproduces the table at every sample point: the pseudo value of row
    [j] maps to the real value of row [j]. *)
Theorem lookup_forward_at_sample (self : LookupTable.t) (pf rf : string)
    (xp fp : list Qc) (j : nat) (xj yj : Qc) :
  LookupTable.PseudoPosition_fields self = [pf] →
  LookupTable.RealPosition_fields self = [rf] →
  dict_get (LookupTable._table_data_by_name self) pf = Ok xp →
  dict_get (LookupTable._table_data_by_name self) rf = Ok fp →
  length xp = length fp →
  strictly_increasing xp →
  xp !! j = Some xj →
  fp !! j = Some yj →
  LookupTable.forward self [(pf, xj)] = Ok [(rf, yj)].
Proof.
  intros Hpf Hrf Hxp Hfp Hlen Hinc Hxj Hyj.
  rewrite (lookup_forward_interp self pf rf xp fp xj Hpf Hrf Hxp Hfp).
  destruct xp as [|x0 xp]; [discriminate|].
  destruct fp as [|y0 fp]; [discriminate|].
  rewrite (np_interp_cons xj x0 y0 xp fp) by (simpl in Hlen; congruence).
  assert (Qc_ltb (List.last xp x0) xj = false) as ->.
  { apply Qc_ltb_false.
    apply (sample_below_last x0 xp j xj Hinc Hxj). }
  assert (x0 ≤ xj) as Hle.
  { destruct j as [|j]; [injection Hxj as <-; apply Qcle_refl|].
    apply Qclt_le_weak.
    apply (strictly_increasing_from_lookup x0 xp j xj Hinc Hxj). }
  apply Qc_ltb_false in Hle. rewrite Hle.
  rewrite (interp_from_sample x0 y0 xp fp j xj yj Hinc Hxj Hyj).
  reflexivity.
Qed.

Lemma lookup_forward_at_sample_witness :
  LookupTable.forward example_positioner [("pseudo", qz 20)]
  = Ok [("real", qz 2)].
Proof.
  apply (lookup_forward_at_sample example_positioner "pseudo" "real"
           (qz <$> [0; 10; 20; 30]%Z) (qz <$> [0; 1; 2; 3]%Z) 2).
  - reflexivity.
  - reflexivity.
  - reflexivity.
  - reflexivity.
  - reflexivity.
  - simpl. repeat split.
  - reflexivity.
  - reflexivity.
Defined.




(** X10: the transform is for one pseudo axis and one real axis only:
    with any other number of either, construction is not what fails, but
    every [forward] and [inverse] call raises a [ValueError]. *)
Theorem lookup_needs_single_axes (self : LookupTable.t)
    (pos : namedtuple) :
  length (LookupTable.PseudoPosition_fields self) ≠ 1%nat ∨
  length (LookupTable.RealPosition_fields self) ≠ 1%nat →
  ∃ m,
    LookupTable.forward self pos = Raise (ValueError m) ∧
    LookupTable.inverse self pos = Raise (ValueError m).
Proof.
  intros Hcount. unfold LookupTable.forward, LookupTable.inverse.
  destruct (LookupTable.PseudoPosition_fields self) as [|pf [|pf' pfs]];
    try (eexists; split; reflexivity).
  destruct (LookupTable.RealPosition_fields self) as [|rf [|rf' rfs]];
    try (eexists; split; reflexivity).
  destruct Hcount as [H|H]; simpl in H; congruence.
Qed.

Lemma lookup_needs_single_axes_witness :
  ∃ m,
    LookupTable.forward
      {| LookupTable.table := example_table;
         LookupTable.column_names := example_names;
         LookupTable._table_data_by_name :=
           LookupTable.table_data_by_name example_table example_names;
         LookupTable.PseudoPosition_fields := ["pseudo"];
         LookupTable.RealPosition_fields := ["real"; "pseudo"] |}
      [("pseudo", qz 15)] = Raise (ValueError m) ∧
    LookupTable.inverse
      {| LookupTable.table := example_table;
         LookupTable.column_names := example_names;
         LookupTable._table_data_by_name :=
           LookupTable.table_data_by_name example_table example_names;
         LookupTable.PseudoPosition_fields := ["pseudo"];
         LookupTable.RealPosition_fields := ["real"; "pseudo"] |}
      [("pseudo", qz 15)] = Raise (ValueError m).
Proof.
  apply lookup_needs_single_axes. right. simpl. lia.
Defined.

(** ** The lookup table: what construction checks *)

Lemma init_missing_witness :
  ∃ missing,
    LookupTable.init example_device example_table ["pseudo"; "other"]
      = ([], Raise (ValueError (PositionersNotPresent missing))) ∧
    "real" ∈ missing ∧
    ∀ a, a ∈ missing
         ↔ a ∈ LookupTable.real_attrs example_device
                 ++ LookupTable.pseudo_attrs example_device
           ∧ a ∉ ["pseudo"; "other"].
Proof.
  apply (init_missing example_device example_table ["pseudo"; "other"]
           "real").
  - compute_done.
  - compute_done.
Defined.

Lemma init_bad_shape_witness :
  ∃ m,
    LookupTable.init example_device three_column_table example_names
    = ([], Raise (ValueError m)).
Proof.
  apply (init_bad_shape example_device three_column_table example_names 3).
  - compute_done.
  - reflexivity.
  - left. simpl. lia.
Defined.

Lemma column_length (tbl : ndarray) (rows cols idx : nat) :
  shape tbl = [rows; cols] → length (column tbl idx) = rows.
Proof.
  intros Hshape. unfold column. rewrite Hshape.
  rewrite length_fmap, length_seq. reflexivity.
Qed.

Lemma init_ok_shape (d : LookupTable.device) (tbl : ndarray)
    (names : list string) (evs : list LookupTable.event)
    (self : LookupTable.t) :
  LookupTable.init d tbl names = (evs, Ok self) →
  ∃ rows, shape tbl = [rows; length names].
Proof.
  unfold LookupTable.init, shape_last.
  destruct (negb (bool_decide (LookupTable.missing_positioners d names = ∅)));
    [discriminate|].
  destruct (shape tbl) as [|rows [|cols [|more sh]]] eqn:Hshape; simpl;
    try discriminate.
  - destruct (bool_decide (length names = rows)); discriminate.
  - destruct (decide (length names = cols)) as [->|Hne].
    + intros _. eauto.
    + rewrite (bool_decide_eq_false_2 _ Hne). discriminate.
  - destruct (last (more :: sh)) as [ncols|]; [|discriminate].
    destruct (bool_decide (length names = ncols)); discriminate.
Qed.

(** X13: what a successful construction implies: every configured axis
    is among the column names, the table is two-dimensional with one
    column per name and (when there is a column at all) at least one row,
    and every column name, not only those of the axes, is an attribute of
    the positioner and the key of a column with one entry per row. *)
Theorem init_ok_requires (d : LookupTable.device) (tbl : ndarray)
    (names : list string) (evs : list LookupTable.event)
    (self : LookupTable.t) :
  LookupTable.init d tbl names = (evs, Ok self) →
  (∀ attr,
     attr ∈ LookupTable.real_attrs d ++ LookupTable.pseudo_attrs d →
     attr ∈ names) ∧
  ∃ rows,
    shape tbl = [rows; length names] ∧
    (names ≠ [] → (0 < rows)%nat) ∧
    ∀ name,
      name ∈ names →
      is_Some (LookupTable.cpt d name) ∧
      ∃ data,
        dict_get (LookupTable._table_data_by_name self) name = Ok data ∧
        length data = rows.
Proof.
  intros Hinit.
  destruct (init_ok_shape _ _ _ _ _ Hinit) as [rows Hshape].
  destruct (init_ok_inv _ _ _ _ _ Hinit) as (Hmiss & Hloop & Hdata).
  assert (∀ name, name ∈ names →
            is_Some (LookupTable.cpt d name) ∧
            ∃ data,
              dict_get (LookupTable._table_data_by_name self) name = Ok data ∧
              length data = rows ∧ data ≠ []) as Hnames.
  { intros name Hname. rewrite Hdata.
    destruct (table_data_lookup tbl names name Hname)
      as (data & idx & Hget & _ & ->).
    pose proof (set_limits_loop_ok _ _ _ Hloop name _
                  (dict_get_elem _ _ _ Hget)) as (lo & hi & Hlo & _ & Hcpt).
    split.
    - destruct (LookupTable.cpt d name); [eauto|contradiction].
    - eexists. split; [exact Hget|].
      split; [apply (column_length _ _ _ _ Hshape)|].
      intros Hnil. rewrite Hnil in Hlo. discriminate. }
  split.
  - intros attr Hattr. destruct (decide (attr ∈ names)) as [H|H]; [exact H|].
    assert (attr ∈ LookupTable.missing_positioners d names) as Hin
      by (apply missing_positioners_spec; auto).
    rewrite Hmiss in Hin. destruct (not_elem_of_empty _ Hin).
  - exists rows. split; [exact Hshape|]. split.
    + intros Hne. destruct names as [|name names]; [congruence|].
      destruct (Hnames name ltac:(left)) as (_ & data & _ & Hlen & Hdne).
      destruct data; [congruence|]. simpl in Hlen. lia.
    + intros name Hname.
      destruct (Hnames name Hname) as (Hcpt & data & Hget & Hlen & _).
      eauto.
Qed.

Lemma init_ok_requires_witness :
  (∀ attr,
     attr ∈ LookupTable.real_attrs example_device
            ++ LookupTable.pseudo_attrs example_device →
     attr ∈ example_names) ∧
  ∃ rows,
    shape example_table = [rows; length example_names] ∧
    (example_names ≠ [] → (0 < rows)%nat) ∧
    ∀ name,
      name ∈ example_names →
      is_Some (LookupTable.cpt example_device name) ∧
      ∃ data,
        dict_get (LookupTable._table_data_by_name example_positioner) name
          = Ok data ∧
        length data = rows.
Proof.
  apply (init_ok_requires example_device example_table example_names
           [LookupTable.SetLimits "real" (qz 0, qz 3);
            LookupTable.SetPseudoLimits "pseudo" (qz 0, qz 30)]
           example_positioner).
  vm_compute. reflexivity.
Defined.

(** X14: when a column name is repeated, the last column of that name is
    the one the positioner keeps and interpolates on. *)
Theorem init_repeated_name_last_wins (d : LookupTable.device)
    (tbl : ndarray) (names : list string) (evs : list LookupTable.event)
    (self : LookupTable.t) (attr : string) (idx : nat) :
  LookupTable.init d tbl names = (evs, Ok self) →
  names !! idx = Some attr →
  (∀ j, (idx < j)%nat → names !! j ≠ Some attr) →
  dict_get (LookupTable._table_data_by_name self) attr
  = Ok (column tbl idx).
Proof.
  intros Hinit. destruct (init_ok_inv _ _ _ _ _ Hinit) as (_ & _ & ->).
  clear Hinit. revert idx.
  induction names as [|name names IH] using rev_ind; intros idx Hidx Hlast;
    [discriminate|].
  rewrite table_data_by_name_snoc, dict_get_set.
  destruct (decide (name = attr)) as [->|Hne].
  - destruct (decide (idx = length names)) as [->|Hidx']; [reflexivity|].
    exfalso. apply (Hlast (length names)).
    + apply lookup_lt_Some in Hidx. rewrite length_app in Hidx.
      simpl in Hidx. lia.
    + apply list_lookup_middle. reflexivity.
  - assert (idx < length names)%nat as Hlt.
    { destruct (decide (idx < length names)%nat) as [H|H]; [exact H|].
      exfalso. apply lookup_lt_Some in Hidx as Hlen.
      rewrite length_app in Hlen. simpl in Hlen.
      assert (idx = length names) as -> by lia.
      rewrite list_lookup_middle in Hidx by reflexivity. congruence. }
    rewrite lookup_app_l in Hidx by exact Hlt.
    apply IH; [exact Hidx|].
    intros j Hj Hnj. apply (Hlast j Hj).
    apply lookup_app_l_Some. exact Hnj.
Qed.

Lemma init_repeated_name_last_wins_witness :
  dict_get
    (LookupTable._table_data_by_name
       {| LookupTable.table := three_column_table;
          LookupTable.column_names := ["real"; "pseudo"; "real"];
          LookupTable._table_data_by_name :=
            LookupTable.table_data_by_name three_column_table
              ["real"; "pseudo"; "real"];
          LookupTable.PseudoPosition_fields := ["pseudo"];
          LookupTable.RealPosition_fields := ["real"] |}) "real"
  = Ok (column three_column_table 2).
Proof.
  apply (init_repeated_name_last_wins example_device three_column_table
           ["real"; "pseudo"; "real"]
           [LookupTable.SetLimits "real" (qz 5, qz 6);
            LookupTable.SetPseudoLimits "pseudo" (qz 0, qz 10)]).
  - vm_compute. reflexivity.
  - reflexivity.
  - intros [|[|[|j]]] Hj; try lia; discriminate.
Defined.

(** ** PV names *)

Lemma list_ascii_of_string_app (s t : string) :
  String.list_ascii_of_string (s +:+ t)
  = String.list_ascii_of_string s ++ String.list_ascii_of_string t.
Proof. induction s as [|c s IH]; simpl; [reflexivity|]. rewrite IH. reflexivity. Qed.

Lemma list_ascii_of_string_inj (s t : string) :
  String.list_ascii_of_string s = String.list_ascii_of_string t → s = t.
Proof.
  intros H. rewrite <- (String.string_of_list_ascii_of_string s),
    <- (String.string_of_list_ascii_of_string t), H. reflexivity.
Qed.

(** A common suffix can be taken off. *)
Lemma string_app_inv_tail (s1 s2 t : string) :
  s1 +:+ t = s2 +:+ t → s1 = s2.
Proof.
  intros H. apply (f_equal String.list_ascii_of_string) in H.
  rewrite !list_ascii_of_string_app in H.
  apply app_inv_tail in H. apply list_ascii_of_string_inj, H.
Qed.

(** Names that end in different characters differ. *)
Lemma string_app_last_differs (s1 s2 t1 t2 : string) (c1 c2 : Ascii.ascii)
    (l1 l2 : list Ascii.ascii) :
  rev (String.list_ascii_of_string t1) = c1 :: l1 →
  rev (String.list_ascii_of_string t2) = c2 :: l2 →
  c1 ≠ c2 →
  s1 +:+ t1 ≠ s2 +:+ t2.
Proof.
  intros H1 H2 Hne Heq.
  apply (f_equal (λ s, rev (String.list_ascii_of_string s))) in Heq.
  rewrite !list_ascii_of_string_app, !rev_app_distr, H1, H2 in Heq.
  simpl in Heq. congruence.
Qed.

(** Names with different endings of one length differ. *)
Lemma string_app_suffix_differs (s1 s2 t1 t2 : string) :
  String.length t1 = String.length t2 →
  t1 ≠ t2 →
  s1 +:+ t1 ≠ s2 +:+ t2.
Proof.
  intros Hlen Hne Heq. apply Hne.
  apply (f_equal String.list_ascii_of_string) in Heq.
  rewrite !list_ascii_of_string_app in Heq.
  apply app_inj_2 in Heq as [_ Heq];
    [apply list_ascii_of_string_inj, Heq|].
  clear Heq Hne. revert t2 Hlen.
  induction t1 as [|c t1 IH]; intros [|c2 t2] Hlen; simpl in *;
    try discriminate; [reflexivity|].
  f_equal. apply IH. congruence.
Qed.

(** X15: a pseudo axis without a prefix of its own gets
    [parent.prefix:attr_name]; under one parent, axes of different
    attribute names get different notepad PVs, and a setpoint PV is never
    the readback PV of any axis. *)
Theorem notepad_pvs_do_not_collide (parent attr1 attr2 : string) :
  attr1 ≠ attr2 →
  ∃ p1 p2,
    PseudoSingleInterface.init_prefix "" (Some parent) (Some attr1)
      = Ok p1 ∧
    PseudoSingleInterface.init_prefix "" (Some parent) (Some attr2)
      = Ok p2 ∧
    PseudoSingleInterface.notepad_setpoint_pv p1
      ≠ PseudoSingleInterface.notepad_setpoint_pv p2 ∧
    PseudoSingleInterface.notepad_readback_pv p1
      ≠ PseudoSingleInterface.notepad_readback_pv p2 ∧
    PseudoSingleInterface.notepad_setpoint_pv p1
      ≠ PseudoSingleInterface.notepad_readback_pv p2 ∧
    PseudoSingleInterface.notepad_setpoint_pv p1
      ≠ PseudoSingleInterface.notepad_readback_pv p1.
Proof.
  intros Hne. eexists _, _.
  split; [reflexivity|]. split; [reflexivity|].
  unfold PseudoSingleInterface.notepad_setpoint_pv,
    PseudoSingleInterface.notepad_readback_pv.
  assert (parent +:+ ":" +:+ attr1 ≠ parent +:+ ":" +:+ attr2) as Hp.
  { intros Heq. apply (inj (String.app parent)) in Heq.
    apply (inj (String.app ":")) in Heq. contradiction. }
  split; [intros Heq; apply Hp, (string_app_inv_tail _ _ _ Heq)|].
  split; [intros Heq; apply Hp, (string_app_inv_tail _ _ _ Heq)|].
  split; eapply string_app_last_differs; try reflexivity; discriminate.
Qed.

Lemma notepad_pvs_do_not_collide_witness :
  ∃ p1 p2,
    PseudoSingleInterface.init_prefix "" (Some "SIM:DELAY") (Some "delay")
      = Ok p1 ∧
    PseudoSingleInterface.init_prefix "" (Some "SIM:DELAY") (Some "other")
      = Ok p2 ∧
    PseudoSingleInterface.notepad_setpoint_pv p1
      ≠ PseudoSingleInterface.notepad_setpoint_pv p2 ∧
    PseudoSingleInterface.notepad_readback_pv p1
      ≠ PseudoSingleInterface.notepad_readback_pv p2 ∧
    PseudoSingleInterface.notepad_setpoint_pv p1
      ≠ PseudoSingleInterface.notepad_readback_pv p2 ∧
    PseudoSingleInterface.notepad_setpoint_pv p1
      ≠ PseudoSingleInterface.notepad_readback_pv p1.
Proof.
  apply (notepad_pvs_do_not_collide "SIM:DELAY" "delay" "other").
  discriminate.
Defined.

(** ** MPOD channels *)

(** X16: the rate setters are methods of [MPODChannel], but the signals
    they write to exist on the subclasses only: on a plain [MPODChannel]
    both raise an [AttributeError] and nothing is written; on a low- and
    on a high-voltage channel both write. *)
Theorem mpod_rate_setters_need_subclass (channel_prefix card_prefix : string)
    (rate : Qc) (w : MPOD.written) :
  (∃ m, MPOD.set_voltage_rise_rate
          (MPOD.init MPOD.MPODChannel channel_prefix) rate w
        = Raise (AttributeError m)) ∧
  (∃ m, MPOD.set_voltage_fall_rate
          (MPOD.init MPOD.MPODChannel channel_prefix) rate w
        = Raise (AttributeError m)) ∧
  MPOD.set_voltage_rise_rate
    (MPOD.init MPOD.MPODChannelLV channel_prefix) rate w
  = Ok (<[channel_prefix +:+ ":SetVoltageRiseRate" := MPOD.Num rate]> w) ∧
  MPOD.set_voltage_fall_rate
    (MPOD.init MPOD.MPODChannelLV channel_prefix) rate w
  = Ok (<[channel_prefix +:+ ":SetVoltageFallRate" := MPOD.Num rate]> w) ∧
  MPOD.set_voltage_rise_rate
    (MPOD.init_hv channel_prefix card_prefix) rate w
  = Ok (<[card_prefix +:+ ":SetVoltageRiseRate" := MPOD.Num rate]> w) ∧
  MPOD.set_voltage_fall_rate
    (MPOD.init_hv channel_prefix card_prefix) rate w
  = Ok (<[card_prefix +:+ ":SetVoltageFallRate" := MPOD.Num rate]> w).
Proof.
  split; [eexists; reflexivity|]. split; [eexists; reflexivity|].
  repeat split.
Qed.

(** X17: a rise or fall rate set on a high-voltage channel is the rate of
    every channel of its card; set on a low-voltage channel it leaves the
    rates of the low-voltage channels of other prefixes alone. *)
Theorem mpod_rate_scope (ch1 ch2 : string) (rate : Qc) (w : MPOD.written) :
  (∀ card,
     ∃ w' pv,
       MPOD.set_voltage_rise_rate (MPOD.init_hv ch1 card) rate w = Ok w' ∧
       MPOD.voltage_rise_rate_pv (MPOD.init_hv ch2 card) = Ok pv ∧
       w' !! pv = Some (MPOD.Num rate)) ∧
  (ch1 ≠ ch2 →
   ∃ w' pv pv',
     MPOD.set_voltage_rise_rate (MPOD.init MPOD.MPODChannelLV ch1) rate w
       = Ok w' ∧
     MPOD.voltage_rise_rate_pv (MPOD.init MPOD.MPODChannelLV ch2) = Ok pv ∧
     MPOD.voltage_fall_rate_pv (MPOD.init MPOD.MPODChannelLV ch2) = Ok pv' ∧
     w' !! pv = w !! pv ∧ w' !! pv' = w !! pv').
Proof.
  split.
  - intros card. eexists _, _. split; [reflexivity|].
    split; [reflexivity|]. apply lookup_insert_eq.
  - intros Hne. eexists _, _, _. split; [reflexivity|].
    split; [reflexivity|]. split; [reflexivity|]. simpl. split.
    + apply lookup_insert_ne. intros Heq.
      apply Hne, (string_app_inv_tail _ _ _ Heq).
    + apply lookup_insert_ne.
      apply string_app_suffix_differs; [reflexivity|discriminate].
Qed.

Lemma mpod_rate_scope_witness :
  ∃ w' pv pv',
    MPOD.set_voltage_rise_rate
      (MPOD.init MPOD.MPODChannelLV "XPP:R39:MPD:CH:0") (qz 5) ∅ = Ok w' ∧
    MPOD.voltage_rise_rate_pv
      (MPOD.init MPOD.MPODChannelLV "XPP:R39:MPD:CH:1") = Ok pv ∧
    MPOD.voltage_fall_rate_pv
      (MPOD.init MPOD.MPODChannelLV "XPP:R39:MPD:CH:1") = Ok pv' ∧
    w' !! pv = (∅ : MPOD.written) !! pv ∧
    w' !! pv' = (∅ : MPOD.written) !! pv'.
Proof.
  apply (proj2 (mpod_rate_scope "XPP:R39:MPD:CH:0" "XPP:R39:MPD:CH:1"
                  (qz 5) ∅)).
  discriminate.
Defined.

(** X18: the five switch commands of a channel write their word to that
    channel's switch PV and to nothing else: the voltage and current
    setpoints of every channel, and the switch of a channel of another
    prefix, keep what was written to them. *)
Theorem mpod_switch_commands_frame (a b : MPOD.t) (w : MPOD.written) :
  Forall (λ '(command, word),
            command a w !! MPOD.state_pv a = Some (MPOD.Str word) ∧
            command a w !! MPOD.voltage_pv b = w !! MPOD.voltage_pv b ∧
            command a w !! MPOD.current_pv b = w !! MPOD.current_pv b ∧
            (MPOD.prefix a ≠ MPOD.prefix b →
             command a w !! MPOD.state_pv b = w !! MPOD.state_pv b))
         [(MPOD.on, "On"); (MPOD.off, "Off"); (MPOD.reset, "Reset");
          (MPOD.emer_off, "EmerOff"); (MPOD.clr_evnt, "ClrEvnt")].
Proof.
  assert (MPOD.state_pv a ≠ MPOD.voltage_pv b) as Hv
    by (eapply string_app_last_differs; try reflexivity; discriminate).
  assert (MPOD.state_pv a ≠ MPOD.current_pv b) as Hc
    by (eapply string_app_last_differs; try reflexivity; discriminate).
  assert (MPOD.prefix a ≠ MPOD.prefix b →
          MPOD.state_pv a ≠ MPOD.state_pv b) as Hs.
  { intros Hne Heq. apply Hne, (string_app_inv_tail _ _ _ Heq). }
  repeat constructor;
    try (apply lookup_insert_eq);
    try (apply lookup_insert_ne; assumption);
    intros Hne; apply lookup_insert_ne, Hs, Hne.
Qed.

Lemma mpod_switch_commands_frame_witness :
  MPOD.off (MPOD.init MPOD.MPODChannelLV "XPP:R39:MPD:CH:0")
    (MPOD.on (MPOD.init MPOD.MPODChannelLV "XPP:R39:MPD:CH:1") ∅)
    !! MPOD.state_pv (MPOD.init MPOD.MPODChannelLV "XPP:R39:MPD:CH:1")
  = Some (MPOD.Str "On").
Proof.
  pose proof (mpod_switch_commands_frame
                (MPOD.init MPOD.MPODChannelLV "XPP:R39:MPD:CH:0")
                (MPOD.init MPOD.MPODChannelLV "XPP:R39:MPD:CH:1")
                (MPOD.on (MPOD.init MPOD.MPODChannelLV "XPP:R39:MPD:CH:1")
                   ∅)) as Hall.
  apply Forall_cons in Hall as [_ Hall].
  apply Forall_cons in Hall as [(_ & _ & _ & Hoff) _].
  rewrite Hoff by discriminate. reflexivity.
Defined.
